(** * The bundling-risk scoring engine of lib/analyzer.ts

    A shallow embedding of the scoring functions of [lib/analyzer.ts]
    and the properties its specification states about them.

    Numbers.  The engine is given twice.  First in exact arithmetic: a
    JavaScript [number] that holds a count, a length, a timestamp in
    milliseconds or the result of [Math.round] is an integer in [Z], and
    every other [number] (amounts, averages, variances, coefficients, the
    Gini value) an exact real in [R].  This is what the formulas of the
    engine say; the one place where it meets NaN (the wallet score of an
    empty array, [0 / 0]) is discussed at [analyzeWalletPatterns].  Then,
    in the module [Binary64], in the IEEE 754 doubles of the runtime, with
    their rounding, [Infinity] and [NaN]: this is what the program
    returns when sums round or overflow, and what depends on that is
    stated there.

    Arrays are lists.  [Array.prototype.sort] sorts the array it is
    called on, so a function that sorts its argument returns the array
    as it is after the call next to its result. *)

From Stdlib Require Import ZArith List String Ascii Bool Reals Lra Lia.
From Stdlib Require Import Permutation Sorted DecimalString FMapPositive.
From Stdlib Require Floats.
Import ListNotations.

Set Warnings "-inexact-float".

(** ** The JavaScript runtime the engine uses *)

Module JS.

(** [arr.length], as an integer. *)
Definition len {A : Type} (l : list A) : Z := Z.of_nat (List.length l).

(** [Math.round x]: the integer nearest to [x], a tie going up, which is
    [floor (x + 0.5)]. *)
Definition Math_round (x : R) : Z := Int_part (x + / 2).

(** [arr.push(x)] *)
Definition push {A : Type} (l : list A) (x : A) : list A := l ++ [x].

(** Insertion of [x] in front of the first element it is allowed to
    precede. *)
Fixpoint insert_by {A : Type} (le : A -> A -> bool) (x : A) (l : list A)
  : list A :=
  match l with
  | [] => [x]
  | y :: l' => if le x y then x :: y :: l' else y :: insert_by le x l'
  end.

(** [arr.sort(cmp)] for a consistent comparator: ascending for [cmp],
    stable.  [le a b] stands for [cmp(a, b) <= 0]. *)
Definition Array_sort {A : Type} (le : A -> A -> bool) (l : list A)
  : list A :=
  fold_right (insert_by le) [] l.

(** [Map<string, V>]: keys in the order of their first insertion. *)
Definition Map (V : Type) : Type := list (string * V).

Fixpoint Map_get {V : Type} (m : Map V) (k : string) : option V :=
  match m with
  | [] => None
  | (k', v) :: m' => if String.eqb k' k then Some v else Map_get m' k
  end.

Definition Map_has {V : Type} (m : Map V) (k : string) : bool :=
  match Map_get m k with Some _ => true | None => false end.

Fixpoint Map_set {V : Type} (m : Map V) (k : string) (v : V) : Map V :=
  match m with
  | [] => [(k, v)]
  | (k', v') :: m' =>
      if String.eqb k' k then (k', v) :: m' else (k', v') :: Map_set m' k v
  end.

Definition Map_keys {V : Type} (m : Map V) : list string := map fst m.
Definition Map_values {V : Type} (m : Map V) : list V := map snd m.

(** [new Set(arr)]: the distinct elements in the order of their first
    occurrence. *)
Definition StringSet : Type := list string.

Definition Set_has (s : StringSet) (k : string) : bool :=
  existsb (String.eqb k) s.

Definition Set_add (s : StringSet) (k : string) : StringSet :=
  if Set_has s k then s else push s k.

Definition Set_of (l : list string) : StringSet := fold_left Set_add l [].

(** [x || 0] where [x] is the result of [Map.get]. *)
Definition or_zero (o : option R) : R :=
  match o with Some v => v | None => 0%R end.

(** [`${n}`] for an integer [n]. *)
Definition toString (n : Z) : string := NilZero.string_of_int (Z.to_int n).

End JS.

Import JS.

(** ** Data model *)

Record TokenTransfer : Type := mkTokenTransfer {
  signature : string;
  timestamp : Z;
  from : string;
  to : string;
  amount : R;
  slot : Z
}.

Record Metrics : Type := mkMetrics {
  timingCluster : Z;
  walletSimilarity : Z;
  sizePatterns : Z;
  distribution : Z
}.

Record Details : Type := mkDetails {
  totalTransactions : Z;
  uniqueWallets : Z;
  analysisPeriod : string;
  suspiciousWallets : Z
}.

Record Insights : Type := mkInsights {
  riskLevel : string;
  primaryConcerns : list string;
  recommendations : list string;
  explanation : string
}.

Record AnalysisResult : Type := mkAnalysisResult {
  score : Z;
  metrics : Metrics;
  details : Details;
  insights : Insights
}.

(** ** analyzeTimeClustering *)

Definition timeWindows : list Z := [30; 60; 300]%Z.

Definition byTimestamp (a b : TokenTransfer) : bool :=
  (timestamp a - timestamp b <=? 0)%Z.

(** The loop [for (let i = 1; i < sorted.length; i++)]: [prev] is
    [sorted[i - 1]] and [rest] is what is left from [sorted[i]] on. *)
Fixpoint clusterLoop (windowMs : Z) (prev : TokenTransfer)
    (rest : list TokenTransfer) (currentCluster : list TokenTransfer)
    (clusters : list (list TokenTransfer))
  : list TokenTransfer * list (list TokenTransfer) :=
  match rest with
  | [] => (currentCluster, clusters)
  | x :: rest' =>
      let timeDiff := (timestamp x - timestamp prev)%Z in
      if (timeDiff <=? windowMs * 1000)%Z
      then clusterLoop windowMs x rest' (push currentCluster x) clusters
      else clusterLoop windowMs x rest' [x]
             (if (len currentCluster >? 1)%Z
              then push clusters currentCluster else clusters)
  end.

Definition clustersOf (windowMs : Z) (sorted : list TokenTransfer)
  : list (list TokenTransfer) :=
  match sorted with
  | [] => []
  | s0 :: rest =>
      let '(currentCluster, clusters) :=
        clusterLoop windowMs s0 rest [s0] [] in
      if (len currentCluster >? 1)%Z
      then push clusters currentCluster else clusters
  end.

(** [Math.max(...clusters.map((c) => c.length), 0)] *)
Definition maxClusterSize (clusters : list (list TokenTransfer)) : Z :=
  fold_right Z.max 0%Z (map (@len TokenTransfer) clusters).

Definition clusterScore (windowMs : Z) (sorted : list TokenTransfer) : R :=
  Rmin 100
    (IZR (maxClusterSize (clustersOf windowMs sorted)) / IZR (len sorted)
     * 200).

Definition timingOfSorted (sorted : list TokenTransfer) : Z :=
  Math_round
    (fold_left (fun maxClusterScore windowMs =>
                  Rmax maxClusterScore (clusterScore windowMs sorted))
       timeWindows 0%R).

(** The score, and the array [transfers] as the call leaves it. *)
Definition analyzeTimeClustering (transfers : list TokenTransfer)
  : Z * list TokenTransfer :=
  if (len transfers <? 2)%Z then (0%Z, transfers)
  else
    let sorted := Array_sort byTimestamp transfers in
    (timingOfSorted sorted, sorted).

(** ** analyzeWalletPatterns *)

Open Scope R_scope.

(** [xs.reduce((a, b) => a + b, 0)] *)
Definition sum (xs : list R) : R := fold_left Rplus xs 0.

(** [xs.reduce((acc, x) => acc + Math.pow(x - avg, 2), 0)] *)
Definition sumSquaredDeviations (xs : list R) (avg : R) : R :=
  fold_left (fun acc x => acc + (x - avg) ^ 2) xs 0.

Definition countTransfers (transfers : list TokenTransfer) : Map R :=
  fold_left
    (fun walletCounts transfer =>
       Map_set walletCounts (to transfer)
         (or_zero (Map_get walletCounts (to transfer)) + 1))
    transfers [].

(** On the empty array the source divides [0] by [0]; the test
    [variance > 0] is then false, as it is here where [0 / 0] is [0 * / 0],
    and the coefficient is [0] in both. *)
Definition analyzeWalletPatterns (transfers : list TokenTransfer) : Z :=
  let walletCounts := countTransfers transfers in
  let counts := Map_values walletCounts in
  let avgTransactionsPerWallet := sum counts / IZR (len counts) in
  let variance :=
    sumSquaredDeviations counts avgTransactionsPerWallet / IZR (len counts) in
  let coefficient :=
    if Rlt_dec 0 variance
    then sqrt variance / avgTransactionsPerWallet else 0 in
  Math_round (Rmax 0 (100 - coefficient * 50)).

(** ** analyzeTransactionSizes *)

Definition analyzeTransactionSizes (transfers : list TokenTransfer) : Z :=
  if (len transfers <? 2)%Z then 0%Z
  else
    let amounts := map amount transfers in
    let avg := sum amounts / IZR (len amounts) in
    let variance := sumSquaredDeviations amounts avg / IZR (len amounts) in
    let stdDev := sqrt variance in
    let coefficient := if Rlt_dec 0 avg then stdDev / avg else 0 in
    Math_round (Rmax 0 (100 - coefficient * 100)).

(** ** analyzeDistribution *)

Definition sumAmounts (transfers : list TokenTransfer) : Map R :=
  fold_left
    (fun buyerAmounts transfer =>
       let current := or_zero (Map_get buyerAmounts (to transfer)) in
       Map_set buyerAmounts (to transfer) (current + amount transfer))
    transfers [].

(** [(a, b) => b - a] *)
Definition descending (a b : R) : bool :=
  if Rle_dec (b - a) 0 then true else false.

(** The two nested loops over [amounts]. *)
Definition pairwiseDifferences (amounts : list R) : R :=
  fold_left
    (fun gini ai =>
       fold_left (fun gini aj => gini + Rabs (ai - aj)) amounts gini)
    amounts 0.

Definition analyzeDistribution (transfers : list TokenTransfer) : Z :=
  let buyerAmounts := sumAmounts transfers in
  let amounts := Array_sort descending (Map_values buyerAmounts) in
  let totalAmount := sum amounts in
  if (len amounts <? 2)%Z then 0%Z
  else if Req_dec_T totalAmount 0 then 0%Z
  else
    let gini := pairwiseDifferences amounts in
    let gini := gini / (2 * IZR (len amounts) * totalAmount) in
    Math_round (gini * 100).

Close Scope R_scope.

(** ** countSuspiciousWallets *)

Open Scope Z_scope.

(** The callback of [transfers.forEach]. *)
Definition collectStep (walletTimes : Map (list Z))
    (transfer : TokenTransfer) : Map (list Z) :=
  let walletTimes :=
    if negb (Map_has walletTimes (to transfer))
    then Map_set walletTimes (to transfer) []
    else walletTimes in
  match Map_get walletTimes (to transfer) with
  | Some times =>
      Map_set walletTimes (to transfer) (push times (timestamp transfer))
  | None => walletTimes
  end.

Definition collectTimes (transfers : list TokenTransfer) : Map (list Z) :=
  fold_left collectStep transfers [].

Definition ascending (a b : Z) : bool := a - b <=? 0.

(** The loop [for (let i = 1; i < times.length; i++)] with its [break]:
    [true] when it reaches [suspicious++]. *)
Fixpoint closePairLoop (prev : Z) (rest : list Z) : bool :=
  match rest with
  | [] => false
  | x :: rest' =>
      if x - prev <? 300000 then true else closePairLoop x rest'
  end.

Definition hasClosePair (times : list Z) : bool :=
  match times with
  | [] => false
  | t0 :: rest => closePairLoop t0 rest
  end.

Definition countSuspiciousWallets (transfers : list TokenTransfer) : Z :=
  let walletTimes := collectTimes transfers in
  fold_left
    (fun suspicious times =>
       if len times >? 1 then
         let times := Array_sort ascending times in
         if hasClosePair times then suspicious + 1 else suspicious
       else suspicious)
    (Map_values walletTimes) 0.

(** The condition under which the callback of [walletTimes.forEach]
    reaches [suspicious++]. *)
Definition countsAsSuspicious (times : list Z) : bool :=
  (len times >? 1) && hasClosePair (Array_sort ascending times).

(** ** generateInsights *)

Close Scope Z_scope.
Open Scope string_scope.
Open Scope Z_scope.

Definition generateInsights (overallScore : Z) (m : Metrics) : Insights :=
  let concerns : list string := [] in
  let recommendations : list string := [] in
  let '(concerns, recommendations) :=
    if timingCluster m >? 70 then
      (push concerns "High coordination in transaction timing",
       push recommendations
         "Investigate if transactions came from known bundling services")
    else (concerns, recommendations) in
  let '(concerns, recommendations) :=
    if walletSimilarity m >? 60 then
      (push concerns "Similar wallet behavior patterns detected",
       push recommendations
         "Check if suspicious wallets share funding sources or creation dates")
    else (concerns, recommendations) in
  let '(concerns, recommendations) :=
    if sizePatterns m >? 60 then
      (push concerns "Automated transaction sizing patterns",
       push recommendations "Verify if similar amounts indicate bot activity")
    else (concerns, recommendations) in
  let '(concerns, recommendations) :=
    if distribution m >? 70 then
      (push concerns "High token concentration among few holders",
       push recommendations
         "Monitor large holders for potential coordinated selling")
    else (concerns, recommendations) in
  let riskLevel :=
    if overallScore >=? 80 then "High Risk"
    else if overallScore >=? 60 then "Medium Risk"
    else if overallScore >=? 40 then "Moderate Risk"
    else "Low Risk" in
  let explanation :=
    if overallScore >=? 70 then
      "Multiple indicators suggest coordinated buying activity. This could indicate bundled transactions, bot activity, or market manipulation."
    else if overallScore >=? 40 then
      "Some patterns suggest possible coordination, but could also be normal market behavior during high activity periods."
    else
      "Transaction patterns appear mostly organic with natural distribution and timing." in
  let '(concerns, recommendations) :=
    if len concerns =? 0 then
      (push concerns "No major red flags detected",
       push recommendations
         "Continue monitoring for any changes in trading patterns")
    else (concerns, recommendations) in
  mkInsights riskLevel concerns recommendations explanation.

(** ** getPeriodString *)

Definition getPeriodString (transfers : list TokenTransfer) : string :=
  if len transfers =? 0 then "0h"
  else
    let times := Array_sort ascending (map timestamp transfers) in
    let duration := last times 0 - hd 0 times in
    let hours := Math_round (IZR duration / (1000 * 60 * 60)) in
    if hours <? 24 then toString hours ++ "h"
    else toString (Math_round (IZR hours / 24)) ++ "d".

(** ** analyzeBundlingPatterns *)

(** The result, and the array [transfers] as the call leaves it: the call
    of [analyzeTimeClustering] sorts it, and the calls after it read the
    sorted array. *)
Definition analyzeBundlingPatterns (transfers : list TokenTransfer)
  : AnalysisResult * list TokenTransfer :=
  let uniqueWallets := Set_of (map from transfers ++ map to transfers) in
  let totalTransactions := len transfers in
  let '(timingScore, transfers) := analyzeTimeClustering transfers in
  let walletScore := analyzeWalletPatterns transfers in
  let sizeScore := analyzeTransactionSizes transfers in
  let distributionScore := analyzeDistribution transfers in
  let overallScore :=
    Math_round
      (IZR timingScore * 0.4 + IZR walletScore * 0.3 + IZR sizeScore * 0.2
       + IZR distributionScore * 0.1)%R in
  let suspiciousWallets := countSuspiciousWallets transfers in
  let insights :=
    generateInsights overallScore
      (mkMetrics timingScore walletScore sizeScore distributionScore) in
  (mkAnalysisResult overallScore
     (mkMetrics timingScore walletScore sizeScore distributionScore)
     (mkDetails totalTransactions (len uniqueWallets)
        (getPeriodString transfers) suspiciousWallets)
     insights,
   transfers).

(** ** analyzeToken *)

(** A promise that has settled: fulfilled with a value, or rejected with
    an [Error] of the given message. *)
Inductive Settled (A : Type) : Type :=
| Fulfilled (value : A)
| Rejected (message : string).

Arguments Fulfilled {A} value.
Arguments Rejected {A} message.

Inductive Period : Type := launch | recent | custom.

Section AnalyzeToken.

(** The retrieval of the transfers from the remote API is not part of
    the engine; what it settles to is all the engine sees. *)
Variable getTokenTransfers :
  string -> Period -> string -> Settled (list TokenTransfer).

Definition analyzeToken (contractAddress : string) (period : Period)
    (apiKey : string) : Settled AnalysisResult :=
  if String.eqb apiKey "" then
    Rejected "Helius API key is required. Please configure it in Settings."
  else
    match getTokenTransfers contractAddress period apiKey with
    | Rejected message => Rejected ("Analysis failed: " ++ message)
    | Fulfilled transfers =>
        if len transfers =? 0 then
          Rejected
            ("Analysis failed: " ++ "No transactions found for this token")
        else Fulfilled (fst (analyzeBundlingPatterns transfers))
    end.

End AnalyzeToken.

Close Scope string_scope.
Close Scope Z_scope.

(** ** getTokenTransfers *)

(** The two remote calls are the boundary of the model: what a call
    settles to is given, as a function of the request. *)

(** The JSON of [getSignaturesForAddress]. *)
Module Rpc.

Record RpcError : Type := mkRpcError {
  message : option string
}.

Record SignatureResult : Type := mkSignatureResult {
  signature : string
}.

Record SignaturesData : Type := mkSignaturesData {
  error : option RpcError;
  result : option (list SignatureResult)
}.

End Rpc.

(** The JSON of the enhanced transactions.  A field that may be missing
    is an [option]; [transactionError] is whether that field is truthy. *)
Module Enhanced.

Record TokenTransferJson : Type := mkTokenTransferJson {
  mint : string;
  tokenAmount : option R;
  fromUserAccount : option string;
  toUserAccount : option string
}.

Record Transaction : Type := mkTransaction {
  transactionError : bool;
  timestamp : option Z;
  signature : string;
  slot : option Z;
  tokenTransfers : option (list TokenTransferJson)
}.

(** An entry of the response body: a transaction or [null], with the
    reading [Date.now()] gives when the loop reaches the entry. *)
Definition Entry : Type := (option Transaction * Z)%type.

(** A response: [response.ok], [response.status] and what
    [response.json()] settles to. *)
Record Response : Type := mkResponse {
  ok : bool;
  status : Z;
  json : Settled (list Entry)
}.

End Enhanced.

Close Scope Z_scope.
Open Scope string_scope.
Open Scope Z_scope.

(** [s || d] for a string that may be missing. *)
Definition orString (s : option string) (d : string) : string :=
  match s with
  | Some s => if String.eqb s "" then d else s
  | None => d
  end.

(** [s.includes(sub)] *)
Definition includes (s sub : string) : bool :=
  match index 0 sub s with Some _ => true | None => false end.

(** [`${message}`] for a message that may be missing. *)
Definition messageText (e : Rpc.RpcError) : string :=
  match Rpc.message e with Some m => m | None => "undefined" end.

(** The body of [for (const transfer of tx.tokenTransfers)]. *)
Definition extractTransfer (contractAddress signature : string)
    (timestamp slot : Z) (transfers : list TokenTransfer)
    (transfer : Enhanced.TokenTransferJson) : list TokenTransfer :=
  match Enhanced.tokenAmount transfer with
  | Some tokenAmount =>
      if String.eqb (Enhanced.mint transfer) contractAddress
         && (if Rlt_dec 0 tokenAmount then true else false)
      then
        push transfers
          (mkTokenTransfer signature timestamp
             (orString (Enhanced.fromUserAccount transfer) "unknown")
             (orString (Enhanced.toUserAccount transfer) "unknown")
             tokenAmount slot)
      else transfers
  | None => transfers
  end.

(** The body of [for (const tx of enhancedData)]. *)
Definition extractTransaction (contractAddress : string)
    (transfers : list TokenTransfer) (entry : Enhanced.Entry)
  : list TokenTransfer :=
  let '(tx, now) := entry in
  match tx with
  | None => transfers
  | Some tx =>
      if Enhanced.transactionError tx then transfers
      else
        let timestamp :=
          match Enhanced.timestamp tx with
          | Some seconds => if seconds =? 0 then now else seconds * 1000
          | None => now
          end in
        let signature := Enhanced.signature tx in
        let slot :=
          match Enhanced.slot tx with Some slot => slot | None => 0 end in
        match Enhanced.tokenTransfers tx with
        | Some tokenTransfers =>
            fold_left (extractTransfer contractAddress signature timestamp slot)
              tokenTransfers transfers
        | None => transfers
        end
  end.

Definition extractTransfers (contractAddress : string)
    (enhancedData : list Enhanced.Entry) (transfers : list TokenTransfer)
  : list TokenTransfer :=
  fold_left (extractTransaction contractAddress) enhancedData transfers.

(** [signatures.slice(i, j).map((sig) => sig.signature)] *)
Definition sliceSignatures (signatures : list Rpc.SignatureResult)
    (i j : Z) : list string :=
  map Rpc.signature
    (firstn (Z.to_nat (j - i)) (skipn (Z.to_nat i) signatures)).

Section GetTokenTransfers.

(** The request for signatures, by API key, address and limit; the
    request for enhanced transactions, by API key, the number of the
    request within the call, and the signatures asked for. *)
Variable fetchSignatures :
  string -> string -> Z -> Settled Rpc.SignaturesData.
Variable fetchEnhanced :
  string -> nat -> list string -> Settled Enhanced.Response.

Definition getTokenTransfersWithReducedLimit (contractAddress : string)
    (limit : Z) (apiKey : string) : Settled (list TokenTransfer) :=
  match fetchSignatures apiKey contractAddress limit with
  | Rejected message => Rejected message
  | Fulfilled signaturesData =>
      match Rpc.error signaturesData with
      | Some error =>
          Rejected ("Reduced query also failed: " ++ messageText error)
      | None =>
          let signatures :=
            match Rpc.result signaturesData with
            | Some signatures => signatures
            | None => []
            end in
          if len signatures =? 0 then
            Rejected "No recent transactions found for this token"
          else
            match fetchEnhanced apiKey 0 (sliceSignatures signatures 0 5) with
            | Rejected message => Rejected message
            | Fulfilled enhancedResponse =>
                if negb (Enhanced.ok enhancedResponse) then
                  Rejected
                    ("Enhanced API failed even with reduced data: "
                     ++ toString (Enhanced.status enhancedResponse))
                else
                  match Enhanced.json enhancedResponse with
                  | Rejected message => Rejected message
                  | Fulfilled enhancedData =>
                      Fulfilled (extractTransfers contractAddress enhancedData [])
                  end
            end
      end
  end.

(** One round of the loop over the batches: the [try] block with its
    [continue] on a failed response and in the [catch]. *)
Definition processBatch (contractAddress apiKey : string)
    (signatures : list Rpc.SignatureResult) (i : Z)
    (transfers : list TokenTransfer) : list TokenTransfer :=
  let batchSize := 10 in
  match fetchEnhanced apiKey (Z.to_nat (i / batchSize))
          (sliceSignatures signatures i (i + batchSize)) with
  | Rejected _ => transfers
  | Fulfilled enhancedResponse =>
      if negb (Enhanced.ok enhancedResponse) then transfers
      else
        match Enhanced.json enhancedResponse with
        | Rejected _ => transfers
        | Fulfilled enhancedData =>
            extractTransfers contractAddress enhancedData transfers
        end
  end.

(** [for (let i = 0; i < Math.min(signatures.length, 20); i += batchSize)],
    from the given [i] on; [rounds] bounds the number of rounds. *)
Fixpoint batchLoop (rounds : nat) (contractAddress apiKey : string)
    (signatures : list Rpc.SignatureResult) (i : Z)
    (transfers : list TokenTransfer) : list TokenTransfer :=
  match rounds with
  | O => transfers
  | S rounds =>
      if i <? Z.min (len signatures) 20 then
        batchLoop rounds contractAddress apiKey signatures (i + 10)
          (processBatch contractAddress apiKey signatures i transfers)
      else transfers
  end.

(** The loop leaves after at most two rounds, so three are enough
    ([batchLoop_rounds]). *)
Definition getTokenTransfers (contractAddress : string) (period : Period)
    (apiKey : string) : Settled (list TokenTransfer) :=
  let limit := match period with recent => 50 | _ => 25 end in
  match fetchSignatures apiKey contractAddress limit with
  | Rejected message => Rejected message
  | Fulfilled signaturesData =>
      match Rpc.error signaturesData with
      | Some error =>
          match Rpc.message error with
          | Some message =>
              if includes message "long-term storage" then
                getTokenTransfersWithReducedLimit contractAddress 10 apiKey
              else Rejected ("Helius RPC error: " ++ messageText error)
          | None => Rejected ("Helius RPC error: " ++ messageText error)
          end
      | None =>
          let signatures :=
            match Rpc.result signaturesData with
            | Some signatures => signatures
            | None => []
            end in
          if len signatures =? 0 then
            Rejected "No transactions found for this token address"
          else
            let transfers :=
              batchLoop 3 contractAddress apiKey signatures 0 [] in
            if len transfers =? 0 then
              Rejected "No token transfers found in the analyzed transactions"
            else Fulfilled transfers
      end
  end.

End GetTokenTransfers.

(** ** The badge of the result card (App.tsx) *)

Definition getScoreLabel (score : Z) : string :=
  if score >=? 80 then "High Risk"
  else if score >=? 60 then "Medium Risk"
  else if score >=? 40 then "Low Risk"
  else "Organic".

Definition getScoreColor (score : Z) : string :=
  if score >=? 80 then "bg-red-500"
  else if score >=? 60 then "bg-orange-500"
  else if score >=? 40 then "bg-yellow-500"
  else "bg-green-500".

Close Scope string_scope.
Close Scope Z_scope.

(** ** The engine in binary64 arithmetic *)

(** The engine once more, with every [number] that is not a timestamp, a
    length or a counter of a loop an IEEE 754 binary64 value, as the
    JavaScript runtime has it: sums and products round to the nearest
    double, overflow to [Infinity], and [NaN] goes through [Math.max],
    [Math.min] and [Math.round].  Timestamps and lengths stay in [Z]:
    whole numbers below 2^53 in size, on which the subtractions and
    comparisons of the source are exact in doubles. *)

Module Binary64.

Import PrimFloat FloatOps SpecFloat.
Local Open Scope string_scope.
Local Open Scope float_scope.

(** The double nearest to the integer [n]. *)
Definition of_Z (n : Z) : float :=
  SF2Prim (binary_normalize prec emax n 0 false).

(** The integer a finite double holds, its fraction dropped. *)
Definition to_Z (x : float) : Z :=
  match Prim2SF x with
  | S754_finite s m e =>
      let n := if (0 <=? e)%Z then (Z.pos m * 2 ^ e)%Z
               else (Z.pos m / 2 ^ (- e))%Z in
      if s then (- n)%Z else n
  | _ => 0%Z
  end.

(** [Math.round x]: [NaN], the infinities and the zeros are returned as
    they are, and so is [x = m * 2 ^ e] with [0 <= e], a whole number;
    of any other [x] the result is [floor (x + 1/2)], computed exactly,
    and [-0] when that is [0] and [x] is negative. *)
Definition Math_round (x : float) : float :=
  match Prim2SF x with
  | S754_finite s m e =>
      if (0 <=? e)%Z then x
      else
        let n :=
          ((2 * (if s then Z.neg m else Z.pos m) + 2 ^ (- e)) / 2 ^ (1 - e))%Z
        in
        if (n =? 0)%Z then (if s then neg_zero else zero) else of_Z n
  | _ => x
  end.

(** [Math.max(a, b)]: [NaN] when an argument is [NaN]; [+0] is larger
    than [-0]. *)
Definition Math_max (a b : float) : float :=
  if is_nan a || is_nan b then nan
  else if a <? b then b
  else if b <? a then a
  else if get_sign a then b else a.

(** [Math.min(a, b)] *)
Definition Math_min (a b : float) : float :=
  if is_nan a || is_nan b then nan
  else if a <? b then a
  else if b <? a then b
  else if get_sign a then a else b.

(** [Math.pow(x, 2)], taken to be the square of [x] rounded to the
    nearest double; ECMAScript leaves its last digit to the
    implementation. *)
Definition Math_pow2 (x : float) : float := x * x.

(** [x || 0] where [x] is the result of [Map.get]: [undefined], [NaN]
    and the zeros are falsy. *)
Definition or_zero (o : option float) : float :=
  match o with
  | Some v => if is_nan v || is_zero v then 0 else v
  | None => 0
  end.

(** [`${x}`] for a whole number [x] below 10^21 in size. *)
Definition Number_toString (x : float) : string := toString (to_Z x).

Record TokenTransfer : Type := mkTokenTransfer {
  signature : string;
  timestamp : Z;
  from : string;
  to : string;
  amount : float;
  slot : Z
}.

Record Metrics : Type := mkMetrics {
  timingCluster : float;
  walletSimilarity : float;
  sizePatterns : float;
  distribution : float
}.

Record AnalysisResult : Type := mkAnalysisResult {
  score : float;
  metrics : Metrics;
  details : Details;
  insights : Insights
}.

(** *** analyzeTimeClustering *)

Definition byTimestamp (a b : TokenTransfer) : bool :=
  (timestamp a - timestamp b <=? 0)%Z.

Fixpoint clusterLoop (windowMs : Z) (prev : TokenTransfer)
    (rest : list TokenTransfer) (currentCluster : list TokenTransfer)
    (clusters : list (list TokenTransfer))
  : list TokenTransfer * list (list TokenTransfer) :=
  match rest with
  | [] => (currentCluster, clusters)
  | x :: rest' =>
      let timeDiff := (timestamp x - timestamp prev)%Z in
      if (timeDiff <=? windowMs * 1000)%Z
      then clusterLoop windowMs x rest' (push currentCluster x) clusters
      else clusterLoop windowMs x rest' [x]
             (if (len currentCluster >? 1)%Z
              then push clusters currentCluster else clusters)
  end.

Definition clustersOf (windowMs : Z) (sorted : list TokenTransfer)
  : list (list TokenTransfer) :=
  match sorted with
  | [] => []
  | s0 :: rest =>
      let '(currentCluster, clusters) :=
        clusterLoop windowMs s0 rest [s0] [] in
      if (len currentCluster >? 1)%Z
      then push clusters currentCluster else clusters
  end.

Definition maxClusterSize (clusters : list (list TokenTransfer)) : Z :=
  fold_right Z.max 0%Z (map (@len TokenTransfer) clusters).

Definition clusterScore (windowMs : Z) (sorted : list TokenTransfer)
  : float :=
  Math_min 100
    (of_Z (maxClusterSize (clustersOf windowMs sorted)) / of_Z (len sorted)
     * 200).

Definition timingOfSorted (sorted : list TokenTransfer) : float :=
  Math_round
    (fold_left (fun maxClusterScore windowMs =>
                  Math_max maxClusterScore (clusterScore windowMs sorted))
       timeWindows 0).

Definition analyzeTimeClustering (transfers : list TokenTransfer)
  : float * list TokenTransfer :=
  if (len transfers <? 2)%Z then (0, transfers)
  else
    let sorted := Array_sort byTimestamp transfers in
    (timingOfSorted sorted, sorted).

(** *** analyzeWalletPatterns *)

Definition sum (xs : list float) : float := fold_left add xs 0.

Definition sumSquaredDeviations (xs : list float) (avg : float) : float :=
  fold_left (fun acc x => acc + Math_pow2 (x - avg)) xs 0.

Definition countTransfers (transfers : list TokenTransfer) : Map float :=
  fold_left
    (fun walletCounts transfer =>
       Map_set walletCounts (to transfer)
         (or_zero (Map_get walletCounts (to transfer)) + 1))
    transfers [].

Definition analyzeWalletPatterns (transfers : list TokenTransfer) : float :=
  let walletCounts := countTransfers transfers in
  let counts := Map_values walletCounts in
  let avgTransactionsPerWallet := sum counts / of_Z (len counts) in
  let variance :=
    sumSquaredDeviations counts avgTransactionsPerWallet / of_Z (len counts) in
  let coefficient :=
    if 0 <? variance
    then sqrt variance / avgTransactionsPerWallet else 0 in
  Math_round (Math_max 0 (100 - coefficient * 50)).

(** *** analyzeTransactionSizes *)

Definition analyzeTransactionSizes (transfers : list TokenTransfer)
  : float :=
  if (len transfers <? 2)%Z then 0
  else
    let amounts := map amount transfers in
    let avg := sum amounts / of_Z (len amounts) in
    let variance := sumSquaredDeviations amounts avg / of_Z (len amounts) in
    let stdDev := sqrt variance in
    let coefficient := if 0 <? avg then stdDev / avg else 0 in
    Math_round (Math_max 0 (100 - coefficient * 100)).

(** *** analyzeDistribution *)

Definition sumAmounts (transfers : list TokenTransfer) : Map float :=
  fold_left
    (fun buyerAmounts transfer =>
       let current := or_zero (Map_get buyerAmounts (to transfer)) in
       Map_set buyerAmounts (to transfer) (current + amount transfer))
    transfers [].

(** [(a, b) => b - a]: [a] goes before [b] unless the difference is
    positive; a difference that is [NaN] counts as [0]. *)
Definition descending (a b : float) : bool := negb (0 <? b - a).

Definition pairwiseDifferences (amounts : list float) : float :=
  fold_left
    (fun gini ai =>
       fold_left (fun gini aj => gini + abs (ai - aj)) amounts gini)
    amounts 0.

Definition analyzeDistribution (transfers : list TokenTransfer) : float :=
  let buyerAmounts := sumAmounts transfers in
  let amounts := Array_sort descending (Map_values buyerAmounts) in
  let totalAmount := sum amounts in
  if (len amounts <? 2)%Z || (totalAmount =? 0) then 0
  else
    let gini := pairwiseDifferences amounts in
    let gini := gini / (2 * of_Z (len amounts) * totalAmount) in
    Math_round (gini * 100).

(** *** countSuspiciousWallets *)

Definition collectStep (walletTimes : Map (list Z))
    (transfer : TokenTransfer) : Map (list Z) :=
  let walletTimes :=
    if negb (Map_has walletTimes (to transfer))
    then Map_set walletTimes (to transfer) []
    else walletTimes in
  match Map_get walletTimes (to transfer) with
  | Some times =>
      Map_set walletTimes (to transfer) (push times (timestamp transfer))
  | None => walletTimes
  end.

Definition collectTimes (transfers : list TokenTransfer) : Map (list Z) :=
  fold_left collectStep transfers [].

Definition countSuspiciousWallets (transfers : list TokenTransfer) : Z :=
  let walletTimes := collectTimes transfers in
  fold_left
    (fun suspicious times =>
       if (len times >? 1)%Z then
         let times := Array_sort ascending times in
         if hasClosePair times then (suspicious + 1)%Z else suspicious
       else suspicious)
    (Map_values walletTimes) 0%Z.

(** *** generateInsights *)

Definition generateInsights (overallScore : float) (m : Metrics)
  : Insights :=
  let concerns : list string := [] in
  let recommendations : list string := [] in
  let '(concerns, recommendations) :=
    if 70 <? timingCluster m then
      (push concerns "High coordination in transaction timing",
       push recommendations
         "Investigate if transactions came from known bundling services")
    else (concerns, recommendations) in
  let '(concerns, recommendations) :=
    if 60 <? walletSimilarity m then
      (push concerns "Similar wallet behavior patterns detected",
       push recommendations
         "Check if suspicious wallets share funding sources or creation dates")
    else (concerns, recommendations) in
  let '(concerns, recommendations) :=
    if 60 <? sizePatterns m then
      (push concerns "Automated transaction sizing patterns",
       push recommendations "Verify if similar amounts indicate bot activity")
    else (concerns, recommendations) in
  let '(concerns, recommendations) :=
    if 70 <? distribution m then
      (push concerns "High token concentration among few holders",
       push recommendations
         "Monitor large holders for potential coordinated selling")
    else (concerns, recommendations) in
  let riskLevel :=
    if 80 <=? overallScore then "High Risk"
    else if 60 <=? overallScore then "Medium Risk"
    else if 40 <=? overallScore then "Moderate Risk"
    else "Low Risk" in
  let explanation :=
    if 70 <=? overallScore then
      "Multiple indicators suggest coordinated buying activity. This could indicate bundled transactions, bot activity, or market manipulation."
    else if 40 <=? overallScore then
      "Some patterns suggest possible coordination, but could also be normal market behavior during high activity periods."
    else
      "Transaction patterns appear mostly organic with natural distribution and timing." in
  let '(concerns, recommendations) :=
    if (len concerns =? 0)%Z then
      (push concerns "No major red flags detected",
       push recommendations
         "Continue monitoring for any changes in trading patterns")
    else (concerns, recommendations) in
  mkInsights riskLevel concerns recommendations explanation.

(** *** getPeriodString *)

Definition getPeriodString (transfers : list TokenTransfer) : string :=
  if (len transfers =? 0)%Z then "0h"
  else
    let times := Array_sort ascending (map timestamp transfers) in
    let duration := (last times 0 - hd 0 times)%Z in
    let hours := Math_round (of_Z duration / (1000 * 60 * 60)) in
    if hours <? 24 then (Number_toString hours ++ "h")%string
    else (Number_toString (Math_round (hours / 24)) ++ "d")%string.

(** *** analyzeBundlingPatterns *)

(** The result, and the array [transfers] as the call leaves it. *)
Definition analyzeBundlingPatterns (transfers : list TokenTransfer)
  : AnalysisResult * list TokenTransfer :=
  let uniqueWallets :=
    Set_of (map from transfers ++ map to transfers)%list in
  let totalTransactions := len transfers in
  let '(timingScore, transfers) := analyzeTimeClustering transfers in
  let walletScore := analyzeWalletPatterns transfers in
  let sizeScore := analyzeTransactionSizes transfers in
  let distributionScore := analyzeDistribution transfers in
  let overallScore :=
    Math_round
      (timingScore * 0.4 + walletScore * 0.3 + sizeScore * 0.2
       + distributionScore * 0.1) in
  let suspiciousWallets := countSuspiciousWallets transfers in
  let insights :=
    generateInsights overallScore
      (mkMetrics timingScore walletScore sizeScore distributionScore) in
  (mkAnalysisResult overallScore
     (mkMetrics timingScore walletScore sizeScore distributionScore)
     (mkDetails totalTransactions (len uniqueWallets)
        (getPeriodString transfers) suspiciousWallets)
     insights,
   transfers).

(** *** The weighted sums of whole metrics *)

(** The whole numbers from 0 to 100, the values of a metric in range. *)
Definition wholeScores : list Z := map Z.of_nat (seq 0 101).

(** A sum of weighted metrics as the doubles give it, next to ten times
    its exact value. *)
Definition Partial : Type := (float * Z)%type.

(** [k * weight] for every whole [k] from 0 to 100. *)
Definition terms (weight : float) (tenths : Z) : list Partial :=
  map (fun k => (of_Z k * weight, (tenths * k)%Z)) wholeScores.

(** [seen] with the partial sum [p], unless it is there already: the
    doubles met so far are kept by their exact value. *)
Definition remember (seen : PositiveMap.t (list float)) (p : Partial)
  : PositiveMap.t (list float) :=
  let key := Z.to_pos (snd p + 1) in
  let known :=
    match PositiveMap.find key seen with Some xs => xs | None => [] end in
  if existsb (Leibniz.eqb (fst p)) known then seen
  else PositiveMap.add key (fst p :: known) seen.

(** The elements of [ps], each of them once. *)
Definition distinct (ps : list Partial) : list Partial :=
  flat_map (fun kv => map (fun x => (x, (Z.pos (fst kv) - 1)%Z)) (snd kv))
    (PositiveMap.elements (fold_left remember ps (PositiveMap.empty _))).

(** [partial + k * weight] for every one of [partials] and every whole
    [k] from 0 to 100. *)
Definition nextTerms (weight : float) (tenths : Z) (partials : list Partial)
  : list Partial :=
  let ts := terms weight tenths in
  distinct
    (flat_map
       (fun p => map (fun t => (fst p + fst t, (snd p + snd t)%Z)) ts)
       partials).

(** Every value of
    [timing * 0.4 + wallet * 0.3 + size * 0.2 + distribution * 0.1] on
    whole metrics from 0 to 100. *)
Definition weightedSums : list Partial :=
  nextTerms 0.1 1 (nextTerms 0.2 2 (nextTerms 0.3 3 (terms 0.4 4))).

Definition roundsTo (x : float) (k : Z) : bool :=
  Leibniz.eqb (Math_round x) (of_Z k).

(** [x] rounds to the nearest whole number of [n / 10], to either
    neighbour when [n / 10] is half-way between two. *)
Definition roundedAsExpected (p : Partial) : bool :=
  let '(x, n) := p in
  if (n mod 10 =? 5)%Z
  then roundsTo x (n / 10) || roundsTo x (n / 10 + 1)
  else roundsTo x ((n + 5) / 10).

(** In [seen] the partial sum [p] is remembered. *)
Definition known (seen : PositiveMap.t (list float)) (p : Partial) : Prop :=
  exists xs,
    PositiveMap.find (Z.to_pos (snd p + 1)) seen = Some xs /\ In (fst p) xs.

(** A whole number from 0 to 100. *)
Definition inRange (x : float) : Prop :=
  exists k : Z, (0 <= k <= 100)%Z /\ x = of_Z k.

(** *** Transfer lists used below *)

(** Three transfers more than five minutes apart, of amounts 2 and 10 to
    one wallet and 1 to another. *)
Definition tieInput : list TokenTransfer :=
  [ mkTokenTransfer "sig1" 0 "F" "A" 2 1;
    mkTokenTransfer "sig2" 1000000 "F" "A" 10 2;
    mkTokenTransfer "sig3" 2000000 "F" "B" 1 3 ].

(** The same three transfers, the last one first. *)
Definition tieInputShuffled : list TokenTransfer :=
  [ mkTokenTransfer "sig3" 2000000 "F" "B" 1 3;
    mkTokenTransfer "sig1" 0 "F" "A" 2 1;
    mkTokenTransfer "sig2" 1000000 "F" "A" 10 2 ].

(** Two transfers of amount 1e308, whose sum is beyond the largest
    double. *)
Definition hugeAmounts : list TokenTransfer :=
  [ mkTokenTransfer "sig1" 0 "F" "A" 1e308 1;
    mkTokenTransfer "sig2" 1000 "F" "B" 1e308 2 ].

(** Four transfers at one instant, three of them to one wallet. *)
Definition sameInstant : list TokenTransfer :=
  [ mkTokenTransfer "sig1" 0 "F" "A" 3.6 1;
    mkTokenTransfer "sig2" 0 "F" "A" 0.5 2;
    mkTokenTransfer "sig3" 0 "F" "A" 1.3 3;
    mkTokenTransfer "sig4" 0 "F" "B" 2.6 4 ].

(** The same four transfers, the second and the third exchanged. *)
Definition sameInstantSwapped : list TokenTransfer :=
  [ mkTokenTransfer "sig1" 0 "F" "A" 3.6 1;
    mkTokenTransfer "sig3" 0 "F" "A" 1.3 3;
    mkTokenTransfer "sig2" 0 "F" "A" 0.5 2;
    mkTokenTransfer "sig4" 0 "F" "B" 2.6 4 ].

End Binary64.

(** The real number a finite double holds, and 0 for the others. *)
Definition to_R (x : PrimFloat.float) : R :=
  match FloatOps.Prim2SF x with
  | SpecFloat.S754_finite s m e =>
      ((if s then - IZR (Z.pos m) else IZR (Z.pos m)) * powerRZ 2 e)%R
  | _ => 0%R
  end.

(** A transfer of the engine in doubles as a transfer of the engine in
    exact arithmetic. *)
Definition exactTransfer (t : Binary64.TokenTransfer) : TokenTransfer :=
  mkTokenTransfer (Binary64.signature t) (Binary64.timestamp t)
    (Binary64.from t) (Binary64.to t) (to_R (Binary64.amount t))
    (Binary64.slot t).

(** ** What the specification says, in its own words *)

Module Spec.

Local Open Scope string_scope.
Local Open Scope Z_scope.

(** The rule table of the insight generation: a condition on the metrics,
    a concern and the recommendation paired with it.  [reaches x t] is
    the comparison of a metric [x] with its threshold [t]; the
    specification writes it [x >= t]. *)
Definition ruleTable (reaches : Z -> Z -> bool) (m : Metrics)
  : list (bool * (string * string)) :=
  [ (reaches (timingCluster m) 70,
     ("High coordination in transaction timing",
      "Investigate if transactions came from known bundling services"));
    (reaches (walletSimilarity m) 60,
     ("Similar wallet behavior patterns detected",
      "Check if suspicious wallets share funding sources or creation dates"));
    (reaches (sizePatterns m) 60,
     ("Automated transaction sizing patterns",
      "Verify if similar amounts indicate bot activity"));
    (reaches (distribution m) 70,
     ("High token concentration among few holders",
      "Monitor large holders for potential coordinated selling")) ].

Definition fallbackPair : string * string :=
  ("No major red flags detected",
   "Continue monitoring for any changes in trading patterns").

(** The pairs of the rules that fire, in the order of the table, or the
    fallback pair alone when none fires. *)
Definition insightPairs (reaches : Z -> Z -> bool) (m : Metrics)
  : list (string * string) :=
  match map snd (filter fst (ruleTable reaches m)) with
  | [] => [fallbackPair]
  | fired => fired
  end.

(** The timestamps of the transfers received by [wallet], in the order of
    the list. *)
Definition timesOf (wallet : string) (transfers : list TokenTransfer)
  : list Z :=
  map timestamp (filter (fun t => String.eqb (to t) wallet) transfers).



(** The distinct receiving addresses of a transfer list. *)
Definition receivers (transfers : list TokenTransfer) : list string :=
  nodup string_dec (map to transfers).

(** Every amount of the list is non-negative, as the data model has it. *)
Definition nonNegativeAmounts (transfers : list TokenTransfer) : Prop :=
  Forall (fun t => (0 <= amount t)%R) transfers.

(** Rounding to the nearest integer, a tie going away from zero. *)
Definition roundHalfAwayFromZero (x : R) : Z :=
  if Rle_dec 0 x then Int_part (x + / 2) else - Int_part (- x + / 2).

End Spec.

Import Spec.

(** ** Concrete transfer lists used below *)

Module Inputs.

Local Open Scope string_scope.

(** Two transfers to two wallets, amounts 7 and 3, more than five minutes
    apart: the size score is exactly 60. *)
Definition thresholdCase : list TokenTransfer :=
  [ mkTokenTransfer "sig1" 0 "F" "A" 7 1;
    mkTokenTransfer "sig2" 1000000 "F" "B" 3 2 ].

(** Two transfers, the later one first. *)
Definition laterFirst : list TokenTransfer :=
  [ mkTokenTransfer "sig1" 1000 "F" "A" 1 1;
    mkTokenTransfer "sig2" 0 "F" "B" 1 2 ].

(** The same two transfers, the earlier one first. *)
Definition earlierFirst : list TokenTransfer :=
  [ mkTokenTransfer "sig2" 0 "F" "B" 1 2;
    mkTokenTransfer "sig1" 1000 "F" "A" 1 1 ].


(** Two transfers, one of a negative amount. *)
Definition negativeAmount : list TokenTransfer :=
  [ mkTokenTransfer "sig1" 0 "F" "A" 3 1;
    mkTokenTransfer "sig2" 1000 "F" "B" (-2) 2 ].

(** Three transfers of amount 100 to three wallets, one second apart,
    the latest one first. *)
Definition threeEqualShuffled : list TokenTransfer :=
  [ mkTokenTransfer "sig3" 2000 "F" "C" 100 3;
    mkTokenTransfer "sig1" 0 "F" "A" 100 1;
    mkTokenTransfer "sig2" 1000 "F" "B" 100 2 ].

End Inputs.

Import Inputs.

(** ** Further notions used in the statements *)

Module Notions.

Local Open Scope string_scope.

(** The differences between neighbours of a list of times. *)
Fixpoint consecutiveGaps (times : list Z) : list Z :=
  match times with
  | [] => []
  | a :: rest =>
      match rest with
      | [] => []
      | b :: _ => (b - a)%Z :: consecutiveGaps rest
      end
  end.


(** A transfer of a positive amount between two named accounts. *)
Definition wellFormed (t : TokenTransfer) : Prop :=
  (0 < amount t)%R /\ from t <> "" /\ to t <> "".


End Notions.

Import Notions.

(** ** Sample data *)

Module Samples.

Local Open Scope string_scope.

(** Five transfers to five wallets, the first of amount 100 and the
    others of amount 0. *)
Definition concentrated : list TokenTransfer :=
  [ mkTokenTransfer "sig1" 0 "F" "A" 100 1;
    mkTokenTransfer "sig2" 1000 "F" "B" 0 2;
    mkTokenTransfer "sig3" 2000 "F" "C" 0 3;
    mkTokenTransfer "sig4" 3000 "F" "D" 0 4;
    mkTokenTransfer "sig5" 4000 "F" "E" 0 5 ].

(** One transaction with one transfer of 5 units of the token "MINT",
    the receiver missing, and one transfer of another token. *)
Definition sampleTransaction : Enhanced.Transaction :=
  Enhanced.mkTransaction false (Some 1700000000%Z) "sig1" (Some 42%Z)
    (Some [ Enhanced.mkTokenTransferJson "MINT" (Some 5%R) (Some "F") None;
            Enhanced.mkTokenTransferJson "OTHER" (Some 7%R) (Some "F")
              (Some "A") ]).

Definition sampleData : list Enhanced.Entry :=
  [ (None, 1%Z); (Some sampleTransaction, 2%Z) ].

Definition sampleTransfer : TokenTransfer :=
  mkTokenTransfer "sig1" 1700000000000 "F" "unknown" 5 42.

(** An RPC that knows one signature, and an enhanced API that answers
    with [sampleData]. *)
Definition sampleSignatures (apiKey contractAddress : string) (limit : Z)
  : Settled Rpc.SignaturesData :=
  Fulfilled
    (Rpc.mkSignaturesData None (Some [Rpc.mkSignatureResult "sig1"])).

Definition sampleEnhanced (apiKey : string) (request : nat)
    (signatures : list string) : Settled Enhanced.Response :=
  Fulfilled (Enhanced.mkResponse true 200 (Fulfilled sampleData)).

(** An RPC that fails on long-term storage unless asked for ten
    signatures, and an enhanced API that answers with no transaction. *)
Definition storageSignatures (apiKey contractAddress : string) (limit : Z)
  : Settled Rpc.SignaturesData :=
  if (limit =? 10)%Z then
    Fulfilled
      (Rpc.mkSignaturesData None (Some [Rpc.mkSignatureResult "sig1"]))
  else
    Fulfilled
      (Rpc.mkSignaturesData
         (Some (Rpc.mkRpcError
                  (Some "Failed to query long-term storage; please try again")))
         None).

Definition emptyEnhanced (apiKey : string) (request : nat)
    (signatures : list string) : Settled Enhanced.Response :=
  Fulfilled (Enhanced.mkResponse true 200 (Fulfilled [])).

(** A retrieval that fails. *)
Definition failingRetrieval (contractAddress : string) (period : Period)
    (apiKey : string) : Settled (list TokenTransfer) :=
  Rejected "Helius RPC error: Too many requests".

End Samples.

Import Samples.

(** * Properties *)

Open Scope string_scope.
Open Scope list_scope.

(** ** Rounding *)

Lemma Math_round_spec (x : R) (z : Z) :
  (IZR z - / 2 <= x < IZR z + / 2)%R -> Math_round x = z.
Proof.
  intros [Hlo Hhi]. unfold Math_round. symmetry.
  apply Int_part_spec. lra.
Qed.

Lemma Math_round_IZR (z : Z) : Math_round (IZR z) = z.
Proof. apply Math_round_spec. lra. Qed.

Lemma Math_round_bounds (x : R) (lo hi : Z) :
  (IZR lo <= x <= IZR hi)%R -> (lo <= Math_round x <= hi)%Z.
Proof.
  intros [Hlo Hhi]. unfold Math_round.
  destruct (base_Int_part (x + / 2)) as [H1 H2].
  split; apply Z.lt_succ_r, lt_IZR; rewrite succ_IZR; lra.
Qed.

(** On the non-negative reals [Math.round] is rounding half away from
    zero. *)
Lemma Math_round_half_away (x : R) :
  (0 <= x)%R -> Math_round x = roundHalfAwayFromZero x.
Proof.
  intros Hx. unfold roundHalfAwayFromZero.
  destruct (Rle_dec 0 x) as [_ | Hn]; [reflexivity | contradiction].
Qed.

(** ** Evaluation on concrete inputs *)

Lemma descending_true (a b : R) : (b <= a)%R -> descending a b = true.
Proof.
  intros H. unfold descending.
  destruct (Rle_dec (b - a) 0); [reflexivity | lra].
Qed.

Lemma descending_false (a b : R) : (a < b)%R -> descending a b = false.
Proof.
  intros H. unfold descending.
  destruct (Rle_dec (b - a) 0); [lra | reflexivity].
Qed.

Lemma sqrt_4 : sqrt 4 = 2%R.
Proof. replace 4%R with (2 * 2)%R by lra. apply sqrt_square. lra. Qed.

(** [Math.min], [Math.max] and [Math.abs] of known arguments. *)
Ltac minmax :=
  repeat match goal with
    | |- context [Rmin ?a ?b] =>
        first [ rewrite (Rmin_left a b) by lra
              | rewrite (Rmin_right a b) by lra ]
    | |- context [Rmax ?a ?b] =>
        first [ rewrite (Rmax_left a b) by lra
              | rewrite (Rmax_right a b) by lra ]
    | |- context [Rabs ?a] =>
        first [ rewrite (Rabs_pos_eq a) by lra
              | rewrite (Rabs_left1 a) by lra ]
    end.

(** The comparator of the descending sort at known arguments. *)
Ltac compare_desc :=
  repeat match goal with
    | |- context [descending ?a ?b] =>
        first [ rewrite (descending_true a b) by lra
              | rewrite (descending_false a b) by lra ];
        cbn
    end.

(** The tests [x > 0] and [x === 0] at known arguments. *)
Ltac decide_R :=
  repeat match goal with
    | |- context [Rlt_dec ?a ?b] =>
        destruct (Rlt_dec a b); [ try (exfalso; lra) | try (exfalso; lra) ]
    | |- context [Req_dec_T ?a ?b] =>
        destruct (Req_dec_T a b); [ try (exfalso; lra) | try (exfalso; lra) ]
    end.

Ltac rounds := apply Math_round_spec; lra.

(** ** The empty transfer list *)

(** C3: when the retrieval settles to the empty list of transfers,
    [analyzeToken] is rejected with an error and fulfils no result: the
    error of the missing API key when the key is empty, and otherwise
    the error "No transactions found for this token" behind the prefix
    the [catch] block adds. *)
Theorem analyzeToken_rejects_empty
    (getTokenTransfers :
       string -> Period -> string -> Settled (list TokenTransfer))
    (contractAddress : string) (period : Period) (apiKey : string) :
  getTokenTransfers contractAddress period apiKey = Fulfilled [] ->
  analyzeToken getTokenTransfers contractAddress period apiKey =
  Rejected
    (if String.eqb apiKey ""
     then "Helius API key is required. Please configure it in Settings."
     else "Analysis failed: No transactions found for this token")%string.
Proof.
  intros Hfetch. unfold analyzeToken. rewrite Hfetch.
  destruct (String.eqb apiKey ""); reflexivity.
Qed.

Lemma analyzeToken_rejects_empty_witness :
  analyzeToken (fun _ _ _ => Fulfilled []) "mint" recent "key" =
  Rejected "Analysis failed: No transactions found for this token".
Proof.
  apply (analyzeToken_rejects_empty (fun _ _ _ => Fulfilled [])
           "mint" recent "key").
  reflexivity.
Defined.

(** ** Insights *)

Lemma generateInsights_pairs (overallScore : Z) (m : Metrics) :
  primaryConcerns (generateInsights overallScore m) =
    map fst (insightPairs Z.gtb m) /\
  recommendations (generateInsights overallScore m) =
    map snd (insightPairs Z.gtb m).
Proof.
  unfold generateInsights, insightPairs, ruleTable.
  destruct (timingCluster m >? 70)%Z, (walletSimilarity m >? 60)%Z,
    (sizePatterns m >? 60)%Z, (distribution m >? 70)%Z;
    cbn; split; reflexivity.
Qed.

Lemma analyzeBundlingPatterns_insights (transfers : list TokenTransfer) :
  let r := fst (analyzeBundlingPatterns transfers) in
  insights r = generateInsights (score r) (metrics r).
Proof.
  unfold analyzeBundlingPatterns.
  destruct (analyzeTimeClustering transfers) as [timingScore sorted].
  reflexivity.
Qed.

(** The result on [thresholdCase], field by field. *)

Lemma thresholdCase_timing :
  analyzeTimeClustering thresholdCase = (0%Z, thresholdCase).
Proof.
  unfold analyzeTimeClustering, timingOfSorted, clusterScore. cbn.
  f_equal. minmax. rounds.
Qed.

Lemma thresholdCase_wallet : analyzeWalletPatterns thresholdCase = 100%Z.
Proof.
  unfold analyzeWalletPatterns, countTransfers, sum, sumSquaredDeviations.
  cbn. decide_R. minmax. rounds.
Qed.

Lemma thresholdCase_size : analyzeTransactionSizes thresholdCase = 60%Z.
Proof.
  unfold analyzeTransactionSizes, sum, sumSquaredDeviations. cbn.
  decide_R.
  match goal with |- context [sqrt ?v] => replace v with 4%R by field end.
  rewrite sqrt_4. minmax. rounds.
Qed.

Lemma thresholdCase_distribution : analyzeDistribution thresholdCase = 20%Z.
Proof.
  unfold analyzeDistribution, sumAmounts. cbn. compare_desc.
  unfold sum, pairwiseDifferences. cbn. decide_R. minmax. rounds.
Qed.

Lemma thresholdCase_period : getPeriodString thresholdCase = "0h".
Proof.
  unfold getPeriodString. cbn.
  replace (Math_round (1000000 / (1000 * 60 * 60))) with 0%Z
    by (symmetry; rounds).
  reflexivity.
Qed.

Lemma thresholdCase_result :
  fst (analyzeBundlingPatterns thresholdCase) =
  mkAnalysisResult 44
    (mkMetrics 0 100 60 20)
    (mkDetails 2 3 "0h" 0)
    (mkInsights "Moderate Risk"
       ["Similar wallet behavior patterns detected"]
       ["Check if suspicious wallets share funding sources or creation dates"]
       "Some patterns suggest possible coordination, but could also be normal market behavior during high activity periods.").
Proof.
  unfold analyzeBundlingPatterns. rewrite thresholdCase_timing.
  rewrite thresholdCase_wallet, thresholdCase_size,
    thresholdCase_distribution, thresholdCase_period.
  replace (Math_round (0 * 0.4 + 100 * 0.3 + 60 * 0.2 + 20 * 0.1)) with 44%Z
    by (symmetry; rounds).
  reflexivity.
Qed.

(** C5, as the code has it: the concerns and the recommendations of a
    result are the two halves of the pairs the rule table yields, in the
    order of the table, where a rule fires exactly when its metric is
    strictly above its threshold (timing > 70, wallet > 60, size > 60,
    distribution > 70), and the fallback pair alone when no rule fires;
    the two lists have the same length. *)
Theorem insights_follow_strict_rule_table (transfers : list TokenTransfer) :
  let r := fst (analyzeBundlingPatterns transfers) in
  primaryConcerns (insights r) = map fst (insightPairs Z.gtb (metrics r)) /\
  recommendations (insights r) = map snd (insightPairs Z.gtb (metrics r)) /\
  List.length (primaryConcerns (insights r)) =
    List.length (recommendations (insights r)).
Proof.
  intros r. subst r. rewrite analyzeBundlingPatterns_insights.
  destruct (generateInsights_pairs
              (score (fst (analyzeBundlingPatterns transfers)))
              (metrics (fst (analyzeBundlingPatterns transfers))))
    as [Hc Hr].
  rewrite Hc, Hr, !length_map. auto.
Qed.

(** C5 fails as stated: on [thresholdCase] the size metric is exactly 60,
    which the claim counts as firing the size rule, and the concern of
    that rule is not among the concerns of the result. *)
Lemma insights_threshold_counterexample :
  let r := fst (analyzeBundlingPatterns thresholdCase) in
  sizePatterns (metrics r) = 60%Z /\
  ~ In "Automated transaction sizing patterns"%string
      (primaryConcerns (insights r)) /\
  primaryConcerns (insights r) <> map fst (insightPairs Z.geb (metrics r)).
Proof.
  rewrite thresholdCase_result. cbn. repeat split.
  - intros [H | []]. discriminate H.
  - discriminate.
Qed.

(** ** The input array after the call *)

Lemma analyzeBundlingPatterns_array (transfers : list TokenTransfer) :
  snd (analyzeBundlingPatterns transfers) =
  if (len transfers <? 2)%Z then transfers
  else Array_sort byTimestamp transfers.
Proof.
  unfold analyzeBundlingPatterns, analyzeTimeClustering.
  destruct (len transfers <? 2)%Z; reflexivity.
Qed.

(** C7 does not hold of the code: the call leaves the array [laterFirst]
    in another order than it found it, the earlier transfer first. *)
Theorem analyzeBundlingPatterns_reorders_input :
  snd (analyzeBundlingPatterns laterFirst) = earlierFirst /\
  earlierFirst <> laterFirst.
Proof.
  split.
  - rewrite analyzeBundlingPatterns_array. reflexivity.
  - discriminate.
Qed.

(** ** A single transfer *)

(** C4 does not hold of the code: for a single transfer the timing, size
    and distribution scores are 0 and the wallet-similarity score
    is 100. *)
Theorem single_transfer_metrics (t : TokenTransfer) :
  metrics (fst (analyzeBundlingPatterns [t])) = mkMetrics 0 100 0 0.
Proof.
  unfold analyzeBundlingPatterns. cbn.
  unfold analyzeWalletPatterns, countTransfers, sum, sumSquaredDeviations.
  cbn. f_equal. decide_R. minmax. rounds.
Qed.

(** ** The worked example of the specification *)

Lemma Permutation_three {A : Type} (a b c : A) (l : list A) :
  Permutation l [a; b; c] ->
  l = [a; b; c] \/ l = [a; c; b] \/ l = [b; a; c] \/
  l = [b; c; a] \/ l = [c; a; b] \/ l = [c; b; a].
Proof.
  intros Hp. symmetry in Hp.
  assert (Hin : In a l) by (eapply Permutation_in; [exact Hp | now left]).
  apply in_split in Hin as [l1 [l2 ->]].
  apply Permutation_cons_app_inv in Hp.
  pose proof (Permutation_length Hp) as Hlen. rewrite length_app in Hlen.
  destruct l1 as [| x [| y [| z l1]]]; cbn in Hp, Hlen.
  - apply Permutation_length_2_inv in Hp as [-> | ->]; auto.
  - destruct l2 as [| y [| z l2]]; try discriminate.
    apply Permutation_length_2_inv in Hp as [Heq | Heq];
      injection Heq as -> ->; auto 6.
  - destruct l2; [| cbn in Hlen; lia].
    apply Permutation_length_2_inv in Hp as [Heq | Heq];
      injection Heq as -> ->; auto 6.
  - cbn in Hlen. lia.
Qed.

Section ThreeEqualTransfers.

Variables r1 r2 r3 : TokenTransfer.
Hypothesis amount1 : amount r1 = 100%R.
Hypothesis amount2 : amount r2 = 100%R.
Hypothesis amount3 : amount r3 = 100%R.
Hypothesis timestamp1 : timestamp r1 = 0%Z.
Hypothesis timestamp2 : timestamp r2 = 1000%Z.
Hypothesis timestamp3 : timestamp r3 = 2000%Z.
Hypothesis distinct12 : to r1 <> to r2.
Hypothesis distinct13 : to r1 <> to r3.
Hypothesis distinct23 : to r2 <> to r3.

Ltac distinct_wallets :=
  pose proof (proj2 (String.eqb_neq _ _) distinct12) as E12;
  pose proof (proj2 (String.eqb_neq _ _) distinct13) as E13;
  pose proof (proj2 (String.eqb_neq _ _) distinct23) as E23;
  cbn; rewrite ?E12, ?E13, ?E23; cbn; rewrite ?E12, ?E13, ?E23; cbn.

Lemma threeEqual_sorted (transfers : list TokenTransfer) :
  Permutation transfers [r1; r2; r3] ->
  Array_sort byTimestamp transfers = [r1; r2; r3] /\ len transfers = 3%Z.
Proof.
  intros Hp.
  destruct (Permutation_three r1 r2 r3 transfers Hp)
    as [-> | [-> | [-> | [-> | [-> | ->]]]]];
    cbn; unfold byTimestamp; rewrite ?timestamp1, ?timestamp2, ?timestamp3;
    cbn; rewrite ?timestamp1, ?timestamp2, ?timestamp3; cbn;
    rewrite ?timestamp1, ?timestamp2, ?timestamp3; cbn; split; reflexivity.
Qed.

Lemma threeEqual_timing : timingOfSorted [r1; r2; r3] = 100%Z.
Proof.
  unfold timingOfSorted, clusterScore. cbn.
  rewrite timestamp1, timestamp2, timestamp3. cbn.
  minmax. rounds.
Qed.

Lemma threeEqual_wallet : analyzeWalletPatterns [r1; r2; r3] = 100%Z.
Proof.
  unfold analyzeWalletPatterns, countTransfers. distinct_wallets.
  unfold sum, sumSquaredDeviations. cbn. decide_R. minmax. rounds.
Qed.

Lemma threeEqual_size : analyzeTransactionSizes [r1; r2; r3] = 100%Z.
Proof.
  unfold analyzeTransactionSizes, sum, sumSquaredDeviations. cbn.
  rewrite amount1, amount2, amount3. decide_R.
  match goal with |- context [sqrt ?v] => replace v with 0%R by field end.
  rewrite sqrt_0. minmax. rounds.
Qed.

Lemma threeEqual_distribution : analyzeDistribution [r1; r2; r3] = 0%Z.
Proof.
  unfold analyzeDistribution, sumAmounts. distinct_wallets.
  rewrite amount1, amount2, amount3. compare_desc.
  unfold sum, pairwiseDifferences. cbn. decide_R. minmax. rounds.
Qed.

(** C8: an input of exactly three transfer records, in any order, all of
    amount 100, to three distinct receiving wallets, with timestamps
    0 ms, 1000 ms and 2000 ms, has timing score 100, size score 100,
    wallet score 100, distribution score 0, composite score 90 and risk
    level "High Risk". *)
Theorem three_equal_transfers_example (transfers : list TokenTransfer) :
  Permutation transfers [r1; r2; r3] ->
  let r := fst (analyzeBundlingPatterns transfers) in
  timingCluster (metrics r) = 100%Z /\
  sizePatterns (metrics r) = 100%Z /\
  walletSimilarity (metrics r) = 100%Z /\
  distribution (metrics r) = 0%Z /\
  score r = 90%Z /\
  riskLevel (insights r) = "High Risk".
Proof.
  intros Hp. destruct (threeEqual_sorted transfers Hp) as [Hsorted Hlen].
  unfold analyzeBundlingPatterns, analyzeTimeClustering.
  rewrite Hlen, Hsorted. cbn [Z.ltb Z.compare Pos.compare Pos.compare_cont].
  rewrite threeEqual_timing, threeEqual_wallet, threeEqual_size,
    threeEqual_distribution.
  replace (Math_round (100 * 0.4 + 100 * 0.3 + 100 * 0.2 + 0 * 0.1))
    with 90%Z by (symmetry; rounds).
  cbn. repeat split; reflexivity.
Qed.

End ThreeEqualTransfers.

Lemma three_equal_transfers_example_witness :
  let r := fst (analyzeBundlingPatterns threeEqualShuffled) in
  timingCluster (metrics r) = 100%Z /\
  sizePatterns (metrics r) = 100%Z /\
  walletSimilarity (metrics r) = 100%Z /\
  distribution (metrics r) = 0%Z /\
  score r = 90%Z /\
  riskLevel (insights r) = "High Risk".
Proof.
  apply (three_equal_transfers_example
           (mkTokenTransfer "sig1" 0 "F" "A" 100 1)
           (mkTokenTransfer "sig2" 1000 "F" "B" 100 2)
           (mkTokenTransfer "sig3" 2000 "F" "C" 100 3));
    try reflexivity; try discriminate.
  apply (Permutation_cons_append
           [mkTokenTransfer "sig1" 0 "F" "A" 100 1;
            mkTokenTransfer "sig2" 1000 "F" "B" 100 2]).
Defined.

(** ** Sorting *)

Lemma insert_by_perm {A : Type} (le : A -> A -> bool) (x : A) (l : list A) :
  Permutation (insert_by le x l) (x :: l).
Proof.
  induction l as [| y l IH]; cbn.
  - reflexivity.
  - destruct (le x y).
    + reflexivity.
    + rewrite IH. apply perm_swap.
Qed.

Lemma Array_sort_perm {A : Type} (le : A -> A -> bool) (l : list A) :
  Permutation (Array_sort le l) l.
Proof.
  induction l as [| x l IH]; cbn.
  - reflexivity.
  - rewrite insert_by_perm. now apply perm_skip.
Qed.

Lemma Array_sort_length {A : Type} (le : A -> A -> bool) (l : list A) :
  len (Array_sort le l) = len l.
Proof.
  unfold len. now rewrite (Permutation_length (Array_sort_perm le l)).
Qed.

Lemma insert_ascending_sorted (x : Z) (l : list Z) :
  StronglySorted Z.le l -> StronglySorted Z.le (insert_by ascending x l).
Proof.
  induction 1 as [| y l Hs IH Hall]; cbn.
  - repeat constructor.
  - unfold ascending at 1. destruct (Z.leb_spec (x - y) 0) as [Hle | Hgt].
    + constructor.
      * now constructor.
      * constructor; [lia |].
        eapply Forall_impl; [| exact Hall]. cbn. intros; lia.
    + constructor; [exact IH |].
      rewrite (insert_by_perm ascending x l). constructor; [lia | exact Hall].
Qed.

Lemma Array_sort_ascending_sorted (l : list Z) :
  StronglySorted Z.le (Array_sort ascending l).
Proof.
  induction l as [| x l IH]; cbn.
  - constructor.
  - now apply insert_ascending_sorted.
Qed.

Lemma sorted_perm_unique (l l' : list Z) :
  StronglySorted Z.le l -> StronglySorted Z.le l' -> Permutation l l' ->
  l = l'.
Proof.
  intros Hl. revert l'.
  induction Hl as [| a l Hs IH Ha]; intros l' Hl' Hp.
  - now apply Permutation_nil in Hp.
  - destruct Hl' as [| b l' Hs' Hb].
    + symmetry in Hp. now apply Permutation_nil in Hp.
    + assert (Hab : a = b).
      { assert (In a (b :: l')) as [-> | Hin]
          by (eapply Permutation_in; [exact Hp | now left]);
          [reflexivity |].
        assert (In b (a :: l)) as [-> | Hin']
          by (eapply Permutation_in; [symmetry; exact Hp | now left]);
          [reflexivity |].
        rewrite Forall_forall in Ha, Hb.
        specialize (Ha _ Hin'). specialize (Hb _ Hin). lia. }
      subst b. f_equal. apply IH; [exact Hs' |].
      now apply Permutation_cons_inv in Hp.
Qed.

Lemma Array_sort_ascending_perm (l l' : list Z) :
  Permutation l l' -> Array_sort ascending l = Array_sort ascending l'.
Proof.
  intros Hp. apply sorted_perm_unique.
  - apply Array_sort_ascending_sorted.
  - apply Array_sort_ascending_sorted.
  - rewrite !Array_sort_perm. exact Hp.
Qed.

Lemma timestamps_insert (x : TokenTransfer) (l : list TokenTransfer) :
  map timestamp (insert_by byTimestamp x l) =
  insert_by ascending (timestamp x) (map timestamp l).
Proof.
  induction l as [| y l IH]; cbn.
  - reflexivity.
  - unfold byTimestamp at 1, ascending at 1.
    destruct (timestamp x - timestamp y <=? 0)%Z; cbn; [reflexivity |].
    now rewrite IH.
Qed.

Lemma timestamps_sort (l : list TokenTransfer) :
  map timestamp (Array_sort byTimestamp l) =
  Array_sort ascending (map timestamp l).
Proof.
  unfold Array_sort. induction l as [| x l IH]; cbn.
  - reflexivity.
  - now rewrite timestamps_insert, IH.
Qed.

(** ** Clusters *)

Lemma len_push {A : Type} (l : list A) (x : A) :
  len (push l x) = (len l + 1)%Z.
Proof. unfold len, push. rewrite length_app. cbn. lia. Qed.

Lemma clusterLoop_timestamps (windowMs : Z) (rest rest' : list TokenTransfer) :
  map timestamp rest = map timestamp rest' ->
  forall prev prev' cur cur' clusters clusters',
    timestamp prev = timestamp prev' ->
    len cur = len cur' ->
    map (@len _) clusters = map (@len _) clusters' ->
    len (fst (clusterLoop windowMs prev rest cur clusters)) =
      len (fst (clusterLoop windowMs prev' rest' cur' clusters')) /\
    map (@len _) (snd (clusterLoop windowMs prev rest cur clusters)) =
      map (@len _) (snd (clusterLoop windowMs prev' rest' cur' clusters')).
Proof.
  revert rest'.
  induction rest as [| x rest IH]; intros [| x' rest'] Hts; try discriminate;
    intros prev prev' cur cur' clusters clusters' Hprev Hcur Hcl.
  - cbn. auto.
  - cbn in Hts. injection Hts as Hx Hrest. cbn.
    rewrite Hx, Hprev, Hcur.
    destruct (timestamp x' - timestamp prev' <=? windowMs * 1000)%Z.
    + apply IH; auto. now rewrite !len_push, Hcur.
    + apply IH; auto.
      destruct (len cur' >? 1)%Z; [| exact Hcl].
      unfold push. rewrite !map_app, Hcl. cbn. now rewrite Hcur.
Qed.

Lemma clustersOf_timestamps (windowMs : Z) (sorted sorted' : list TokenTransfer) :
  map timestamp sorted = map timestamp sorted' ->
  map (@len _) (clustersOf windowMs sorted) =
  map (@len _) (clustersOf windowMs sorted').
Proof.
  destruct sorted as [| s0 rest], sorted' as [| s0' rest']; try discriminate.
  - reflexivity.
  - cbn. intros Hts. injection Hts as H0 Hrest.
    destruct (clusterLoop_timestamps windowMs rest rest' Hrest
                s0 s0' [s0] [s0'] [] [] H0 eq_refl eq_refl) as [Hc Hk].
    destruct (clusterLoop windowMs s0 rest [s0] []) as [cur cl].
    destruct (clusterLoop windowMs s0' rest' [s0'] []) as [cur' cl'].
    cbn in Hc, Hk. rewrite Hc.
    destruct (len cur' >? 1)%Z; [| exact Hk].
    unfold push. rewrite !map_app, Hk. cbn. now rewrite Hc.
Qed.

Lemma timingOfSorted_timestamps (sorted sorted' : list TokenTransfer) :
  map timestamp sorted = map timestamp sorted' ->
  timingOfSorted sorted = timingOfSorted sorted'.
Proof.
  intros Hts. unfold timingOfSorted, clusterScore, maxClusterSize.
  assert (Hlen : len sorted = len sorted').
  { unfold len. now rewrite <- (length_map timestamp sorted), Hts, length_map. }
  rewrite Hlen. cbn.
  now rewrite !(clustersOf_timestamps _ sorted sorted' Hts).
Qed.

(** C6: the timing-cluster score of a permutation of a transfer list is
    the score of the list. *)
Theorem timing_permutation_invariant (transfers permuted : list TokenTransfer) :
  Permutation transfers permuted ->
  fst (analyzeTimeClustering permuted) = fst (analyzeTimeClustering transfers).
Proof.
  intros Hp. unfold analyzeTimeClustering.
  assert (Hlen : len permuted = len transfers)
    by (unfold len; now rewrite (Permutation_length Hp)).
  rewrite Hlen. destruct (len transfers <? 2)%Z; cbn; [reflexivity |].
  apply timingOfSorted_timestamps. rewrite !timestamps_sort.
  apply Array_sort_ascending_perm. symmetry. now apply Permutation_map.
Qed.

Lemma timing_permutation_invariant_witness :
  fst (analyzeTimeClustering earlierFirst) =
  fst (analyzeTimeClustering laterFirst).
Proof.
  apply (timing_permutation_invariant laterFirst earlierFirst).
  apply perm_swap.
Defined.

(** ** Maps *)

Lemma Map_get_set_same {V : Type} (m : Map V) (k : string) (v : V) :
  Map_get (Map_set m k v) k = Some v.
Proof.
  induction m as [| [k' v'] m IH]; cbn.
  - now rewrite String.eqb_refl.
  - destruct (String.eqb_spec k' k) as [-> | Hne]; cbn.
    + now rewrite String.eqb_refl.
    + destruct (String.eqb_spec k' k); [contradiction | exact IH].
Qed.

Lemma Map_get_set_other {V : Type} (m : Map V) (k k' : string) (v : V) :
  k <> k' -> Map_get (Map_set m k v) k' = Map_get m k'.
Proof.
  intros Hne. induction m as [| [k0 v0] m IH]; cbn.
  - destruct (String.eqb_spec k k'); [contradiction | reflexivity].
  - destruct (String.eqb_spec k0 k) as [-> | Hne0]; cbn.
    + destruct (String.eqb_spec k k'); [contradiction | reflexivity].
    + destruct (String.eqb_spec k0 k'); [reflexivity | exact IH].
Qed.

Lemma Map_keys_set {V : Type} (m : Map V) (k : string) (v : V) :
  Map_keys (Map_set m k v) =
  if Map_has m k then Map_keys m else Map_keys m ++ [k].
Proof.
  unfold Map_has, Map_keys. induction m as [| [k' v'] m IH]; cbn.
  - reflexivity.
  - destruct (String.eqb_spec k' k) as [-> | Hne]; cbn.
    + reflexivity.
    + rewrite IH. now destruct (Map_get m k).
Qed.

Lemma Map_get_keys {V : Type} (m : Map V) (k : string) :
  In k (Map_keys m) <-> Map_get m k <> None.
Proof.
  induction m as [| [k' v'] m IH]; cbn.
  - split; [intros [] | congruence].
  - destruct (String.eqb_spec k' k) as [-> | Hne].
    + split; [discriminate | now left].
    + rewrite <- IH. split; [intros [? | ?]; [contradiction | assumption] | now right].
Qed.

Lemma Map_get_In {V : Type} (m : Map V) (k : string) (v : V) :
  NoDup (Map_keys m) -> (In (k, v) m <-> Map_get m k = Some v).
Proof.
  induction m as [| [k' v'] m IH]; cbn; intros Hnd.
  - split; [intros [] | discriminate].
  - inversion Hnd as [| ? ? Hnotin Hnd']; subst.
    destruct (String.eqb_spec k' k) as [-> | Hne].
    + split.
      * intros [Heq | Hin]; [congruence |].
        exfalso. apply Hnotin. apply (in_map fst) in Hin. exact Hin.
      * intros Heq. left. congruence.
    + rewrite <- (IH Hnd'). split.
      * intros [Heq | Hin]; [congruence | exact Hin].
      * now right.
Qed.

Lemma NoDup_keys_filter {V : Type} (p : string * V -> bool) (m : Map V) :
  NoDup (Map_keys m) -> NoDup (Map_keys (filter p m)).
Proof.
  unfold Map_keys. induction m as [| kv m IH]; cbn; intros Hnd.
  - constructor.
  - inversion Hnd as [| ? ? Hnotin Hnd']; subst.
    destruct (p kv); cbn; [| now apply IH].
    constructor; [| now apply IH].
    intros Hin. apply Hnotin. apply in_map_iff in Hin as [kv' [Heq Hin]].
    apply filter_In in Hin as [Hin _]. rewrite <- Heq. now apply in_map.
Qed.

(** ** The times collected per wallet *)

Lemma collectTimes_snoc (l : list TokenTransfer) (t : TokenTransfer) :
  collectTimes (l ++ [t]) = collectStep (collectTimes l) t.
Proof. unfold collectTimes. now rewrite fold_left_app. Qed.

Lemma timesOf_snoc (w : string) (l : list TokenTransfer) (t : TokenTransfer) :
  timesOf w (l ++ [t]) =
  timesOf w l ++ (if String.eqb (to t) w then [timestamp t] else []).
Proof.
  unfold timesOf. rewrite filter_app, map_app. cbn.
  now destruct (String.eqb (to t) w).
Qed.

Lemma timesOf_nil_iff (w : string) (l : list TokenTransfer) :
  ~ In w (map to l) -> timesOf w l = [].
Proof.
  unfold timesOf. induction l as [| t l IH]; cbn; intros Hn.
  - reflexivity.
  - destruct (String.eqb_spec (to t) w) as [Heq | Hne].
    + exfalso. apply Hn. now left.
    + apply IH. intros Hin. apply Hn. now right.
Qed.

Lemma collectStep_get (m : Map (list Z)) (t : TokenTransfer) (w : string) :
  Map_get (collectStep m t) w =
  if String.eqb (to t) w
  then Some (push (match Map_get m (to t) with Some times => times | None => [] end)
               (timestamp t))
  else Map_get m w.
Proof.
  unfold collectStep, Map_has.
  destruct (Map_get m (to t)) as [times |] eqn:Hget; cbn [negb].
  - rewrite Hget. destruct (String.eqb_spec (to t) w) as [<- | Hne].
    + apply Map_get_set_same.
    + now apply Map_get_set_other.
  - rewrite Map_get_set_same. destruct (String.eqb_spec (to t) w) as [<- | Hne].
    + apply Map_get_set_same.
    + now rewrite !Map_get_set_other.
Qed.

Lemma collectStep_keys (m : Map (list Z)) (t : TokenTransfer) :
  Map_keys (collectStep m t) =
  if Map_has m (to t) then Map_keys m else Map_keys m ++ [to t].
Proof.
  unfold collectStep.
  destruct (Map_has m (to t)) eqn:Hh; cbn [negb].
  - unfold Map_has in Hh.
    destruct (Map_get m (to t)) eqn:Hget; [| discriminate].
    rewrite Map_keys_set. unfold Map_has. now rewrite Hget.
  - rewrite Map_get_set_same, !Map_keys_set. unfold Map_has at 1.
    now rewrite Map_get_set_same, Hh.
Qed.

Lemma collectTimes_spec (l : list TokenTransfer) :
  NoDup (Map_keys (collectTimes l)) /\
  forall w : string,
    (In w (map to l) -> Map_get (collectTimes l) w = Some (timesOf w l)) /\
    (~ In w (map to l) -> Map_get (collectTimes l) w = None).
Proof.
  induction l as [| t l [IHnd IHget]] using rev_ind.
  - split; [constructor |]. intros w. split; [intros [] | reflexivity].
  - rewrite collectTimes_snoc.
    set (m := collectTimes l) in *.
    assert (Hhas : Map_has m (to t) = true <-> In (to t) (map to l)).
    { unfold Map_has. destruct (IHget (to t)) as [H1 H2].
      destruct (in_dec string_dec (to t) (map to l)) as [Hin | Hn].
      - rewrite (H1 Hin). tauto.
      - rewrite (H2 Hn). split; [discriminate | contradiction]. }
    split.
    + rewrite collectStep_keys.
      destruct (Map_has m (to t)) eqn:Hh; [exact IHnd |].
      apply NoDup_app; [exact IHnd | repeat constructor; intros [] |].
      intros w Hin [<- | []]. apply Map_get_keys in Hin.
      unfold Map_has in Hh. destruct (Map_get m (to t)); [discriminate | now apply Hin].
    + intros w. rewrite collectStep_get, map_app, timesOf_snoc. cbn [map].
      destruct (IHget w) as [H1 H2].
      destruct (String.eqb_spec (to t) w) as [<- | Hne].
      * split; [intros _ | intros Hn; exfalso; apply Hn, in_or_app; right; now left].
        unfold push. f_equal. f_equal.
        destruct (in_dec string_dec (to t) (map to l)) as [Hin | Hn].
        -- now rewrite (H1 Hin).
        -- now rewrite (H2 Hn), (timesOf_nil_iff _ _ Hn).
      * rewrite app_nil_r. split.
        -- intros Hin. apply in_app_or in Hin as [Hin | [Heq | []]];
             [now apply H1 | contradiction].
        -- intros Hn. apply H2. intros Hin. apply Hn, in_or_app. now left.
Qed.

(** ** Suspicious wallets *)



Lemma countSuspiciousWallets_filter (transfers : list TokenTransfer) :
  countSuspiciousWallets transfers =
  len (filter countsAsSuspicious (Map_values (collectTimes transfers))).
Proof.
  unfold countSuspiciousWallets.
  assert (H : forall (l : list (list Z)) (n : Z),
             fold_left
               (fun suspicious times =>
                  if (len times >? 1)%Z
                  then
                    let times := Array_sort ascending times in
                    if hasClosePair times then (suspicious + 1)%Z
                    else suspicious
                  else suspicious) l n =
             (n + len (filter countsAsSuspicious l))%Z).
  { induction l as [| times l IH]; intros n; cbn.
    - unfold len. cbn. lia.
    - rewrite IH. unfold countsAsSuspicious at 2.
      destruct (len times >? 1)%Z; cbn; [| reflexivity].
      destruct (hasClosePair (Array_sort ascending times)); cbn; [| reflexivity].
      unfold len. cbn [List.length]. lia. }
  rewrite H. lia.
Qed.


Lemma timesOf_nonempty (w : string) (l : list TokenTransfer) :
  timesOf w l <> [] -> In w (map to l).
Proof.
  intros Hne. destruct (in_dec string_dec w (map to l)) as [Hin | Hn];
    [exact Hin | now rewrite timesOf_nil_iff in Hne].
Qed.


(** ** Sets *)

Lemma Set_has_In (s : StringSet) (k : string) :
  Set_has s k = true <-> In k s.
Proof.
  unfold Set_has. rewrite existsb_exists. split.
  - intros [x [Hin Heq]]. apply String.eqb_eq in Heq. now subst.
  - intros Hin. exists k. split; [exact Hin | apply String.eqb_refl].
Qed.

Lemma Set_add_spec (s : StringSet) (k : string) :
  NoDup s ->
  NoDup (Set_add s k) /\ forall x, In x (Set_add s k) <-> In x s \/ x = k.
Proof.
  intros Hnd. unfold Set_add, push.
  destruct (Set_has s k) eqn:Hhas.
  - apply Set_has_In in Hhas. split; [exact Hnd |].
    intros x. split; [now left | intros [H | ->]; assumption].
  - assert (Hn : ~ In k s) by (rewrite <- Set_has_In, Hhas; discriminate).
    split.
    + apply NoDup_app; [exact Hnd | repeat constructor; intros [] |].
      intros x Hin [<- | []]. contradiction.
    + intros x. rewrite in_app_iff. cbn. intuition.
Qed.

Lemma Set_of_spec (l : list string) :
  NoDup (Set_of l) /\ forall x, In x (Set_of l) <-> In x l.
Proof.
  unfold Set_of.
  assert (H : forall acc, NoDup acc ->
            NoDup (fold_left Set_add l acc) /\
            forall x, In x (fold_left Set_add l acc) <-> In x acc \/ In x l).
  { induction l as [| k l IH]; intros acc Hnd; cbn.
    - split; [exact Hnd |]. intros x. tauto.
    - destruct (Set_add_spec acc k Hnd) as [Hnd' Hin'].
      destruct (IH _ Hnd') as [Hnd'' Hin'']. split; [exact Hnd'' |].
      intros x. rewrite Hin'', Hin'. intuition. }
  destruct (H [] (NoDup_nil _)) as [Hnd Hin]. split; [exact Hnd |].
  intros x. rewrite Hin. cbn. tauto.
Qed.

(** ** Details of the result *)

Lemma analyzeBundlingPatterns_details (transfers : list TokenTransfer) :
  let d := details (fst (analyzeBundlingPatterns transfers)) in
  totalTransactions d = len transfers /\
  uniqueWallets d = len (Set_of (map from transfers ++ map to transfers)) /\
  suspiciousWallets d =
    countSuspiciousWallets (snd (analyzeBundlingPatterns transfers)).
Proof.
  unfold analyzeBundlingPatterns.
  destruct (analyzeTimeClustering transfers) as [timingScore sorted].
  cbn. auto.
Qed.

Lemma analyzeBundlingPatterns_array_perm (transfers : list TokenTransfer) :
  Permutation (snd (analyzeBundlingPatterns transfers)) transfers.
Proof.
  rewrite analyzeBundlingPatterns_array.
  destruct (len transfers <? 2)%Z; [reflexivity | apply Array_sort_perm].
Qed.

Lemma countSuspiciousWallets_le_receivers (transfers permuted : list TokenTransfer) :
  Permutation permuted transfers ->
  (countSuspiciousWallets permuted <= len (receivers transfers))%Z.
Proof.
  intros Hp. rewrite countSuspiciousWallets_filter.
  destruct (collectTimes_spec permuted) as [Hnd Hget].
  set (m := collectTimes permuted) in *.
  assert (H1 : (List.length (filter countsAsSuspicious (Map_values m))
                <= List.length (Map_keys m))%nat).
  { unfold Map_values, Map_keys.
    rewrite (length_map fst m), <- (length_map snd m).
    apply filter_length_le. }
  assert (H2 : (List.length (Map_keys m)
                <= List.length (receivers transfers))%nat).
  { apply NoDup_incl_length; [exact Hnd |].
    intros w Hin. unfold receivers. apply nodup_In.
    apply Map_get_keys in Hin. destruct (Hget w) as [_ Hnone].
    destruct (in_dec string_dec w (map to permuted)) as [Hw | Hn].
    - eapply Permutation_in; [apply Permutation_map; exact Hp | exact Hw].
    - now rewrite (Hnone Hn) in Hin. }
  unfold len. lia.
Qed.

(** C10: in the details of a result, suspiciousWallets is at most the
    number of distinct receiving addresses, which is at most
    uniqueWallets, which is at most twice totalTransactions, and
    totalTransactions is the length of the input list. *)
Theorem details_invariants (transfers : list TokenTransfer) :
  let d := details (fst (analyzeBundlingPatterns transfers)) in
  (suspiciousWallets d <= len (receivers transfers))%Z /\
  (len (receivers transfers) <= uniqueWallets d)%Z /\
  (uniqueWallets d <= totalTransactions d * 2)%Z /\
  totalTransactions d = len transfers.
Proof.
  destruct (analyzeBundlingPatterns_details transfers) as [Htotal [Hunique Hsusp]].
  cbv zeta. rewrite Htotal, Hunique, Hsusp.
  destruct (Set_of_spec (map from transfers ++ map to transfers)) as [Hnd Hin].
  repeat split.
  - apply countSuspiciousWallets_le_receivers, analyzeBundlingPatterns_array_perm.
  - unfold len. apply inj_le. apply NoDup_incl_length.
    + apply NoDup_nodup.
    + intros w Hw. apply nodup_In in Hw. apply Hin, in_or_app. now right.
  - unfold len.
    assert (H : (List.length (Set_of (map from transfers ++ map to transfers))
                 <= List.length (map from transfers ++ map to transfers))%nat).
    { apply NoDup_incl_length; [exact Hnd |]. intros w Hw. now apply Hin. }
    rewrite length_app, !length_map in H. lia.
Qed.



(** ** Ranges of the scores *)

Lemma Rdiv_nonneg (a b : R) : (0 <= a)%R -> (0 <= b)%R -> (0 <= a / b)%R.
Proof.
  intros Ha [Hb | <-]; unfold Rdiv.
  - apply Rmult_le_pos; [exact Ha |]. left. now apply Rinv_0_lt_compat.
  - rewrite Rinv_0. lra.
Qed.

Lemma len_nonneg {A : Type} (l : list A) : (0 <= IZR (len l))%R.
Proof. apply IZR_le. unfold len. lia. Qed.

Lemma sum_acc (l : list R) (a : R) :
  fold_left Rplus l a = (a + sum l)%R.
Proof.
  unfold sum. revert a. induction l as [| x l IH]; intros a; cbn.
  - lra.
  - rewrite (IH (a + x)%R), (IH (0 + x)%R). lra.
Qed.

Lemma sum_cons (x : R) (l : list R) : sum (x :: l) = (x + sum l)%R.
Proof. unfold sum at 1. cbn. rewrite sum_acc. lra. Qed.

Lemma sum_nonneg (l : list R) :
  Forall (fun x => (0 <= x)%R) l -> (0 <= sum l)%R.
Proof.
  induction 1 as [| x l Hx Hl IH].
  - unfold sum. cbn. lra.
  - rewrite sum_cons. lra.
Qed.

Lemma Map_values_set_Forall {V : Type} (P : V -> Prop) (m : Map V)
    (k : string) (v : V) :
  Forall P (Map_values m) -> P v -> Forall P (Map_values (Map_set m k v)).
Proof.
  unfold Map_values. intros Hall Hv.
  induction m as [| [k' v'] m IH]; cbn.
  - now constructor.
  - inversion Hall as [| ? ? Hv' Hall']; subst.
    destruct (String.eqb k' k); cbn; constructor; auto.
Qed.

Lemma Map_get_Forall {V : Type} (P : V -> Prop) (m : Map V)
    (k : string) (v : V) :
  Forall P (Map_values m) -> Map_get m k = Some v -> P v.
Proof.
  unfold Map_values. induction m as [| [k' v'] m IH]; cbn; intros Hall Hget.
  - discriminate.
  - inversion Hall as [| ? ? Hv' Hall']; subst.
    destruct (String.eqb k' k); [now injection Hget as <- | now apply IH].
Qed.

Lemma or_zero_nonneg (m : Map R) (k : string) :
  Forall (fun x => (0 <= x)%R) (Map_values m) ->
  (0 <= or_zero (Map_get m k))%R.
Proof.
  intros Hall. destruct (Map_get m k) as [v |] eqn:Hget; cbn.
  - exact (Map_get_Forall _ m k v Hall Hget).
  - lra.
Qed.

Lemma countTransfers_nonneg (transfers : list TokenTransfer) :
  Forall (fun x => (0 <= x)%R) (Map_values (countTransfers transfers)).
Proof.
  unfold countTransfers.
  induction transfers as [| t l IH] using rev_ind.
  - constructor.
  - rewrite fold_left_app. cbn.
    apply Map_values_set_Forall; [exact IH |].
    pose proof (or_zero_nonneg _ (to t) IH). lra.
Qed.

Lemma sumAmounts_nonneg (transfers : list TokenTransfer) :
  nonNegativeAmounts transfers ->
  Forall (fun x => (0 <= x)%R) (Map_values (sumAmounts transfers)).
Proof.
  unfold sumAmounts, nonNegativeAmounts.
  induction transfers as [| t l IH] using rev_ind; intros Hall.
  - constructor.
  - apply Forall_app in Hall as [Hl Ht]. inversion Ht as [| ? ? Hamount _]; subst.
    rewrite fold_left_app. cbn.
    apply Map_values_set_Forall; [now apply IH |].
    pose proof (or_zero_nonneg _ (to t) (IH Hl)). lra.
Qed.

Lemma analyzeTimeClustering_range (transfers : list TokenTransfer) :
  (0 <= fst (analyzeTimeClustering transfers) <= 100)%Z.
Proof.
  unfold analyzeTimeClustering.
  destruct (len transfers <? 2)%Z; cbn [fst]; [lia |].
  unfold timingOfSorted. apply Math_round_bounds. cbn.
  set (s := Array_sort byTimestamp transfers).
  assert (H : forall w, (clusterScore w s <= 100)%R)
    by (intros w; apply Rmin_l).
  pose proof (H 30%Z). pose proof (H 60%Z). pose proof (H 300%Z).
  split.
  - eapply Rle_trans; [| apply Rmax_l]. eapply Rle_trans; [| apply Rmax_l].
    apply Rmax_l.
  - repeat apply Rmax_lub; lra.
Qed.

Lemma round_of_clamped (coefficient factor : R) :
  (0 <= coefficient)%R -> (0 <= factor)%R ->
  (0 <= Math_round (Rmax 0 (100 - coefficient * factor)) <= 100)%Z.
Proof.
  intros Hc Hf. apply Math_round_bounds. split.
  - apply Rmax_l.
  - apply Rmax_lub; [lra |]. pose proof (Rmult_le_pos _ _ Hc Hf). lra.
Qed.

Lemma analyzeWalletPatterns_range (transfers : list TokenTransfer) :
  (0 <= analyzeWalletPatterns transfers <= 100)%Z.
Proof.
  unfold analyzeWalletPatterns. apply round_of_clamped; [| lra].
  destruct (Rlt_dec _ _); [| lra].
  apply Rdiv_nonneg; [apply sqrt_pos |].
  apply Rdiv_nonneg; [| apply len_nonneg].
  apply sum_nonneg, countTransfers_nonneg.
Qed.

Lemma analyzeTransactionSizes_range (transfers : list TokenTransfer) :
  (0 <= analyzeTransactionSizes transfers <= 100)%Z.
Proof.
  unfold analyzeTransactionSizes.
  destruct (len transfers <? 2)%Z; [lia |].
  apply round_of_clamped; [| lra].
  destruct (Rlt_dec _ _) as [Hpos | _]; [| lra].
  apply Rdiv_nonneg; [apply sqrt_pos | lra].
Qed.

Lemma len_cons {A : Type} (x : A) (l : list A) :
  IZR (len (x :: l)) = (IZR (len l) + 1)%R.
Proof.
  unfold len. cbn [List.length]. rewrite Nat2Z.inj_succ, succ_IZR. reflexivity.
Qed.

(** The inner loop adds to [gini] between nothing and, for each [aj],
    [ai + aj]. *)
Lemma innerLoop_bounds (ai : R) (amounts : list R) (gini : R) :
  (0 <= ai)%R -> Forall (fun x => (0 <= x)%R) amounts ->
  (gini <= fold_left (fun gini aj => gini + Rabs (ai - aj)) amounts gini
        <= gini + (IZR (len amounts) * ai + sum amounts))%R.
Proof.
  intros Hai Hall. revert gini.
  induction Hall as [| aj l Haj Hl IH]; intros gini; cbn [fold_left].
  - unfold len, sum. cbn. lra.
  - specialize (IH (gini + Rabs (ai - aj))%R).
    rewrite len_cons, sum_cons.
    assert (0 <= Rabs (ai - aj) <= ai + aj)%R.
    { split; [apply Rabs_pos |]. unfold Rabs. destruct (Rcase_abs _); lra. }
    lra.
Qed.

Lemma outerLoop_bounds (amounts rest : list R) (gini : R) :
  Forall (fun x => (0 <= x)%R) amounts ->
  Forall (fun x => (0 <= x)%R) rest ->
  (gini <= fold_left
             (fun gini ai =>
                fold_left (fun gini aj => gini + Rabs (ai - aj)) amounts gini)
             rest gini
        <= gini + (IZR (len amounts) * sum rest
                   + IZR (len rest) * sum amounts))%R.
Proof.
  intros Hall Hrest. revert gini.
  induction Hrest as [| ai l Hai Hl IH]; intros gini; cbn [fold_left].
  - unfold len, sum. cbn. lra.
  - pose proof (innerLoop_bounds ai amounts gini Hai Hall) as Hin.
    specialize (IH (fold_left (fun gini aj => gini + Rabs (ai - aj))%R
                      amounts gini)).
    rewrite len_cons, sum_cons. lra.
Qed.

Lemma pairwiseDifferences_bounds (amounts : list R) :
  Forall (fun x => (0 <= x)%R) amounts ->
  (0 <= pairwiseDifferences amounts
     <= 2 * IZR (len amounts) * sum amounts)%R.
Proof.
  intros Hall. unfold pairwiseDifferences.
  pose proof (outerLoop_bounds amounts amounts 0 Hall Hall). lra.
Qed.

Lemma analyzeDistribution_range (transfers : list TokenTransfer) :
  nonNegativeAmounts transfers ->
  (0 <= analyzeDistribution transfers <= 100)%Z.
Proof.
  intros Hnn. unfold analyzeDistribution.
  set (amounts := Array_sort descending (Map_values (sumAmounts transfers))).
  assert (Hall : Forall (fun x => (0 <= x)%R) amounts).
  { eapply Permutation_Forall;
      [symmetry; apply Array_sort_perm | now apply sumAmounts_nonneg]. }
  destruct (len amounts <? 2)%Z; [lia |].
  destruct (Req_dec_T (sum amounts) 0) as [_ | Hne]; [lia |].
  apply Math_round_bounds.
  pose proof (sum_nonneg amounts Hall) as Hsum.
  pose proof (pairwiseDifferences_bounds amounts Hall) as [Hlo Hhi].
  pose proof (len_nonneg amounts) as Hlen.
  set (d := (2 * IZR (len amounts) * sum amounts)%R) in *.
  assert (Hd : (0 <= d)%R) by (unfold d; nra).
  destruct Hd as [Hd | Hd].
  - assert (0 <= pairwiseDifferences amounts / d <= 1)%R.
    { split.
      - apply Rdiv_nonneg; lra.
      - apply Rmult_le_reg_r with d; [exact Hd |].
        unfold Rdiv. rewrite Rmult_assoc, Rinv_l; lra. }
    lra.
  - assert (pairwiseDifferences amounts = 0)%R by lra.
    replace (pairwiseDifferences amounts / d)%R with 0%R; [lra |].
    unfold Rdiv. rewrite H. lra.
Qed.

(** In exact arithmetic the clamps of the formulas keep the result in
    range: for every list of transfer records with non-negative amounts
    the composite score and each of the four metrics are integers between
    0 and 100.  In doubles an overflow gets past the clamps, as the
    evaluation of [Binary64.hugeAmounts] below shows. *)
Lemma exact_score_and_metrics_in_range (transfers : list TokenTransfer) :
  nonNegativeAmounts transfers ->
  let r := fst (analyzeBundlingPatterns transfers) in
  (0 <= score r <= 100)%Z /\
  (0 <= timingCluster (metrics r) <= 100)%Z /\
  (0 <= walletSimilarity (metrics r) <= 100)%Z /\
  (0 <= sizePatterns (metrics r) <= 100)%Z /\
  (0 <= distribution (metrics r) <= 100)%Z.
Proof.
  intros Hnn.
  pose proof (analyzeBundlingPatterns_array_perm transfers) as Hperm.
  pose proof (analyzeTimeClustering_range transfers) as Htiming.
  unfold analyzeBundlingPatterns in *.
  destruct (analyzeTimeClustering transfers) as [timingScore sorted].
  cbn in Hperm, Htiming. cbn.
  pose proof (analyzeWalletPatterns_range sorted) as Hwallet.
  pose proof (analyzeTransactionSizes_range sorted) as Hsize.
  assert (Hdist : (0 <= analyzeDistribution sorted <= 100)%Z).
  { apply analyzeDistribution_range. unfold nonNegativeAmounts in *.
    eapply Permutation_Forall; [symmetry; exact Hperm | exact Hnn]. }
  assert (Hscore :
            (0 <= Math_round
                    (IZR timingScore * 0.4
                     + IZR (analyzeWalletPatterns sorted) * 0.3
                     + IZR (analyzeTransactionSizes sorted) * 0.2
                     + IZR (analyzeDistribution sorted) * 0.1) <= 100)%Z).
  { apply Math_round_bounds.
    destruct Htiming as [Ht1 Ht2%IZR_le], Hwallet as [Hw1 Hw2%IZR_le],
      Hsize as [Hs1 Hs2%IZR_le], Hdist as [Hd1 Hd2%IZR_le].
    apply IZR_le in Ht1, Hw1, Hs1, Hd1. lra. }
  repeat (split; [assumption |]). assumption.
Qed.

(** Outside the data model, with a negative amount, the distribution
    score leaves the range. *)
Lemma negativeAmount_distribution : analyzeDistribution negativeAmount = 250%Z.
Proof.
  unfold analyzeDistribution, sumAmounts. cbn. compare_desc.
  unfold sum, pairwiseDifferences. cbn. decide_R. minmax. rounds.
Qed.

(** [analyzeBundlingPatterns] itself has no guard for the empty list: it
    is [analyzeToken] that rejects it. *)
Lemma empty_list_metrics :
  metrics (fst (analyzeBundlingPatterns [])) = mkMetrics 0 100 0 0 /\
  score (fst (analyzeBundlingPatterns [])) = 30%Z.
Proof.
  unfold analyzeBundlingPatterns. cbn.
  assert (Hw : analyzeWalletPatterns [] = 100%Z).
  { unfold analyzeWalletPatterns, countTransfers, sum, sumSquaredDeviations.
    cbn. destruct (Rlt_dec 0 (0 / 0)) as [H | _].
    - exfalso. unfold Rdiv in H. rewrite Rmult_0_l in H. lra.
    - minmax. rounds. }
  rewrite Hw. split; [reflexivity | rounds].
Qed.

(** * Further properties of the code *)

(** ** Sums do not depend on the order *)

Lemma sum_perm (l l' : list R) : Permutation l l' -> sum l = sum l'.
Proof.
  induction 1 as [| x l l' Hp IH | x y l | l l' l'' Hp IH Hp' IH'].
  - reflexivity.
  - rewrite !sum_cons. now rewrite IH.
  - rewrite !sum_cons. lra.
  - now rewrite IH.
Qed.

Lemma sum_snoc (l : list R) (x : R) : sum (l ++ [x]) = (sum l + x)%R.
Proof. unfold sum. now rewrite fold_left_app. Qed.

Lemma sumSquaredDeviations_map (xs : list R) (avg : R) :
  sumSquaredDeviations xs avg = sum (map (fun x => (x - avg) ^ 2)%R xs).
Proof.
  unfold sumSquaredDeviations, sum. generalize 0%R.
  induction xs as [| x xs IH]; intros acc; cbn [fold_left map].
  - reflexivity.
  - apply IH.
Qed.

Lemma sumSquaredDeviations_perm (l l' : list R) (avg : R) :
  Permutation l l' ->
  sumSquaredDeviations l avg = sumSquaredDeviations l' avg.
Proof.
  intros Hp. rewrite !sumSquaredDeviations_map.
  apply sum_perm. now apply Permutation_map.
Qed.

Lemma len_perm {A : Type} (l l' : list A) :
  Permutation l l' -> len l = len l'.
Proof. intros Hp. unfold len. now rewrite (Permutation_length Hp). Qed.

(** ** Maps with the same bindings *)

Lemma Map_same_bindings {V : Type} (m m' : Map V) :
  NoDup (Map_keys m) -> NoDup (Map_keys m') ->
  (forall k, Map_get m k = Map_get m' k) ->
  Permutation m m'.
Proof.
  intros Hnd Hnd' Hget.
  apply NoDup_Permutation.
  - unfold Map_keys in Hnd. now apply NoDup_map_inv in Hnd.
  - unfold Map_keys in Hnd'. now apply NoDup_map_inv in Hnd'.
  - intros [k v]. rewrite (Map_get_In m k v Hnd), (Map_get_In m' k v Hnd').
    now rewrite Hget.
Qed.

Lemma Map_values_same_bindings {V : Type} (m m' : Map V) :
  NoDup (Map_keys m) -> NoDup (Map_keys m') ->
  (forall k, Map_get m k = Map_get m' k) ->
  Permutation (Map_values m) (Map_values m').
Proof.
  intros. unfold Map_values. apply Permutation_map.
  now apply Map_same_bindings.
Qed.

(** ** The transfers of one wallet *)

Lemma timesOf_perm (w : string) (l l' : list TokenTransfer) :
  Permutation l l' -> Permutation (timesOf w l) (timesOf w l').
Proof.
  intros Hp. unfold timesOf. apply Permutation_map.
  induction Hp as [| x l l' Hp IH | x y l | l l' l'' Hp IH Hp' IH']; cbn.
  - constructor.
  - destruct (String.eqb (to x) w); [now constructor | exact IH].
  - destruct (String.eqb (to x) w), (String.eqb (to y) w);
      try reflexivity. apply perm_swap.
  - now rewrite IH.
Qed.

Lemma filter_perm {A : Type} (p : A -> bool) (l l' : list A) :
  Permutation l l' -> Permutation (filter p l) (filter p l').
Proof.
  induction 1 as [| x l l' Hp IH | x y l | l l' l'' Hp IH Hp' IH']; cbn.
  - constructor.
  - destruct (p x); [now constructor | exact IH].
  - destruct (p x), (p y); try reflexivity. apply perm_swap.
  - now rewrite IH.
Qed.

(** ** The counts per wallet *)

Lemma countTransfers_spec (l : list TokenTransfer) :
  NoDup (Map_keys (countTransfers l)) /\
  forall w : string,
    (In w (map to l) ->
     Map_get (countTransfers l) w = Some (IZR (len (timesOf w l)))) /\
    (~ In w (map to l) -> Map_get (countTransfers l) w = None).
Proof.
  induction l as [| t l [IHnd IHget]] using rev_ind.
  - split; [constructor |]. intros w. split; [intros [] | reflexivity].
  - assert (Hsnoc : countTransfers (l ++ [t]) =
                    Map_set (countTransfers l) (to t)
                      (or_zero (Map_get (countTransfers l) (to t)) + 1)%R)
      by (unfold countTransfers; now rewrite fold_left_app).
    rewrite Hsnoc. set (m := countTransfers l) in *.
    split.
    + rewrite Map_keys_set. destruct (Map_has m (to t)) eqn:Hh; [exact IHnd |].
      apply NoDup_app; [exact IHnd | repeat constructor; intros [] |].
      intros w Hin [<- | []]. apply Map_get_keys in Hin.
      unfold Map_has in Hh. destruct (Map_get m (to t)); [discriminate | now apply Hin].
    + intros w. rewrite map_app, timesOf_snoc. cbn [map].
      destruct (IHget w) as [H1 H2].
      destruct (String.eqb_spec (to t) w) as [<- | Hne].
      * rewrite Map_get_set_same.
        split; [intros _ | intros Hn; exfalso; apply Hn, in_or_app; right; now left].
        f_equal. unfold len. rewrite length_app. cbn [List.length].
        rewrite Nat2Z.inj_add, plus_IZR. cbn.
        destruct (in_dec string_dec (to t) (map to l)) as [Hin | Hn].
        -- rewrite (H1 Hin). reflexivity.
        -- rewrite (H2 Hn), (timesOf_nil_iff _ _ Hn). cbn. reflexivity.
      * rewrite Map_get_set_other by exact Hne. rewrite app_nil_r. split.
        -- intros Hin. apply in_app_or in Hin as [Hin | [Heq | []]];
             [now apply H1 | contradiction].
        -- intros Hn. apply H2. intros Hin. apply Hn, in_or_app. now left.
Qed.

Lemma countTransfers_perm (l l' : list TokenTransfer) :
  Permutation l l' ->
  Permutation (Map_values (countTransfers l)) (Map_values (countTransfers l')).
Proof.
  intros Hp.
  destruct (countTransfers_spec l) as [Hnd Hget].
  destruct (countTransfers_spec l') as [Hnd' Hget'].
  apply Map_values_same_bindings; [exact Hnd | exact Hnd' |].
  intros w. destruct (Hget w) as [H1 H2], (Hget' w) as [H1' H2'].
  destruct (in_dec string_dec w (map to l)) as [Hin | Hn].
  - rewrite (H1 Hin), H1'.
    + now rewrite (len_perm _ _ (timesOf_perm w l l' Hp)).
    + eapply Permutation_in; [apply Permutation_map; exact Hp | exact Hin].
  - rewrite (H2 Hn), H2'; [reflexivity |].
    intros Hin. apply Hn.
    eapply Permutation_in; [apply Permutation_map; symmetry; exact Hp | exact Hin].
Qed.

Lemma analyzeWalletPatterns_perm (l l' : list TokenTransfer) :
  Permutation l l' -> analyzeWalletPatterns l = analyzeWalletPatterns l'.
Proof.
  intros Hp. unfold analyzeWalletPatterns.
  pose proof (countTransfers_perm l l' Hp) as Hc.
  rewrite (sum_perm _ _ Hc), (len_perm _ _ Hc).
  now rewrite (sumSquaredDeviations_perm _ _ _ Hc).
Qed.

Lemma analyzeTransactionSizes_perm (l l' : list TokenTransfer) :
  Permutation l l' -> analyzeTransactionSizes l = analyzeTransactionSizes l'.
Proof.
  intros Hp. unfold analyzeTransactionSizes.
  assert (Hc : Permutation (map amount l) (map amount l'))
    by now apply Permutation_map.
  rewrite (len_perm _ _ Hp), (sum_perm _ _ Hc), (len_perm _ _ Hc).
  now rewrite (sumSquaredDeviations_perm _ _ _ Hc).
Qed.

(** ** The totals per wallet *)

Lemma sumAmounts_spec (l : list TokenTransfer) :
  NoDup (Map_keys (sumAmounts l)) /\
  forall w : string,
    (In w (map to l) ->
     Map_get (sumAmounts l) w =
     Some (sum (map amount (filter (fun t => String.eqb (to t) w) l)))) /\
    (~ In w (map to l) -> Map_get (sumAmounts l) w = None).
Proof.
  induction l as [| t l [IHnd IHget]] using rev_ind.
  - split; [constructor |]. intros w. split; [intros [] | reflexivity].
  - assert (Hsnoc : sumAmounts (l ++ [t]) =
                    Map_set (sumAmounts l) (to t)
                      (or_zero (Map_get (sumAmounts l) (to t)) + amount t)%R)
      by (unfold sumAmounts; now rewrite fold_left_app).
    rewrite Hsnoc. set (m := sumAmounts l) in *.
    split.
    + rewrite Map_keys_set. destruct (Map_has m (to t)) eqn:Hh; [exact IHnd |].
      apply NoDup_app; [exact IHnd | repeat constructor; intros [] |].
      intros w Hin [<- | []]. apply Map_get_keys in Hin.
      unfold Map_has in Hh. destruct (Map_get m (to t)); [discriminate | now apply Hin].
    + intros w. rewrite map_app, filter_app, map_app. cbn [map filter].
      destruct (IHget w) as [H1 H2].
      destruct (String.eqb_spec (to t) w) as [<- | Hne].
      * rewrite Map_get_set_same.
        split; [intros _ | intros Hn; exfalso; apply Hn, in_or_app; right; now left].
        f_equal. cbn [map]. rewrite sum_snoc.
        destruct (in_dec string_dec (to t) (map to l)) as [Hin | Hn].
        -- rewrite (H1 Hin). reflexivity.
        -- rewrite (H2 Hn). cbn [or_zero].
           pose proof (timesOf_nil_iff _ _ Hn) as Hnil. unfold timesOf in Hnil.
           apply map_eq_nil in Hnil. rewrite Hnil. reflexivity.
      * rewrite Map_get_set_other by exact Hne. cbn [map]. rewrite app_nil_r.
        split.
        -- intros Hin. apply in_app_or in Hin as [Hin | [Heq | []]];
             [now apply H1 | contradiction].
        -- intros Hn. apply H2. intros Hin. apply Hn, in_or_app. now left.
Qed.

Lemma sumAmounts_perm (l l' : list TokenTransfer) :
  Permutation l l' ->
  Permutation (Map_values (sumAmounts l)) (Map_values (sumAmounts l')).
Proof.
  intros Hp.
  destruct (sumAmounts_spec l) as [Hnd Hget].
  destruct (sumAmounts_spec l') as [Hnd' Hget'].
  apply Map_values_same_bindings; [exact Hnd | exact Hnd' |].
  intros w. destruct (Hget w) as [H1 H2], (Hget' w) as [H1' H2'].
  destruct (in_dec string_dec w (map to l)) as [Hin | Hn].
  - rewrite (H1 Hin), H1'.
    + f_equal. apply sum_perm, Permutation_map, filter_perm, Hp.
    + eapply Permutation_in; [apply Permutation_map; exact Hp | exact Hin].
  - rewrite (H2 Hn), H2'; [reflexivity |].
    intros Hin. apply Hn.
    eapply Permutation_in; [apply Permutation_map; symmetry; exact Hp | exact Hin].
Qed.

(** ** The descending sort *)

Lemma insert_descending_sorted (x : R) (l : list R) :
  StronglySorted Rge l -> StronglySorted Rge (insert_by descending x l).
Proof.
  induction 1 as [| y l Hs IH Hall]; cbn.
  - repeat constructor.
  - unfold descending at 1. destruct (Rle_dec (y - x) 0) as [Hle | Hgt].
    + constructor.
      * now constructor.
      * constructor; [lra |].
        eapply Forall_impl; [| exact Hall]. cbn. intros; lra.
    + constructor; [exact IH |].
      rewrite (insert_by_perm descending x l). constructor; [lra | exact Hall].
Qed.

Lemma Array_sort_descending_sorted (l : list R) :
  StronglySorted Rge (Array_sort descending l).
Proof.
  induction l as [| x l IH]; cbn.
  - constructor.
  - now apply insert_descending_sorted.
Qed.

Lemma descending_perm_unique (l l' : list R) :
  StronglySorted Rge l -> StronglySorted Rge l' -> Permutation l l' ->
  l = l'.
Proof.
  intros Hl. revert l'.
  induction Hl as [| a l Hs IH Ha]; intros l' Hl' Hp.
  - now apply Permutation_nil in Hp.
  - destruct Hl' as [| b l' Hs' Hb].
    + symmetry in Hp. now apply Permutation_nil in Hp.
    + assert (Hab : a = b).
      { assert (In a (b :: l')) as [-> | Hin]
          by (eapply Permutation_in; [exact Hp | now left]);
          [reflexivity |].
        assert (In b (a :: l)) as [-> | Hin']
          by (eapply Permutation_in; [symmetry; exact Hp | now left]);
          [reflexivity |].
        rewrite Forall_forall in Ha, Hb.
        specialize (Ha _ Hin'). specialize (Hb _ Hin). lra. }
      subst b. f_equal. apply IH; [exact Hs' |].
      now apply Permutation_cons_inv in Hp.
Qed.

Lemma Array_sort_descending_perm (l l' : list R) :
  Permutation l l' -> Array_sort descending l = Array_sort descending l'.
Proof.
  intros Hp. apply descending_perm_unique.
  - apply Array_sort_descending_sorted.
  - apply Array_sort_descending_sorted.
  - rewrite !Array_sort_perm. exact Hp.
Qed.

Lemma analyzeDistribution_perm (l l' : list TokenTransfer) :
  Permutation l l' -> analyzeDistribution l = analyzeDistribution l'.
Proof.
  intros Hp. unfold analyzeDistribution.
  now rewrite (Array_sort_descending_perm _ _ (sumAmounts_perm l l' Hp)).
Qed.

(** ** The other fields of the result *)

Lemma countSuspiciousWallets_wallets (l : list TokenTransfer) :
  exists wallets : list string,
    NoDup wallets /\
    (forall w, In w wallets <-> countsAsSuspicious (timesOf w l) = true) /\
    countSuspiciousWallets l = len wallets.
Proof.
  destruct (collectTimes_spec l) as [Hnd Hget].
  set (m := collectTimes l) in *.
  exists (Map_keys (filter (fun kv => countsAsSuspicious (snd kv)) m)).
  split; [now apply NoDup_keys_filter |]. split.
  - intros w. unfold Map_keys. rewrite in_map_iff. split.
    + intros [[k times] [Hk Hin]]. cbn in Hk. subst k.
      apply filter_In in Hin as [Hin Htest]. cbn in Htest.
      apply Map_get_In in Hin; [| exact Hnd].
      destruct (Hget w) as [H1 H2].
      destruct (in_dec string_dec w (map to l)) as [Hw | Hn].
      * rewrite (H1 Hw) in Hin. injection Hin as <-. exact Htest.
      * rewrite (H2 Hn) in Hin. discriminate.
    + intros Htest. exists (w, timesOf w l). split; [reflexivity |].
      apply filter_In. split; [| exact Htest].
      apply Map_get_In; [exact Hnd |].
      destruct (Hget w) as [H1 _]. apply H1. apply timesOf_nonempty.
      intros Hnil. rewrite Hnil in Htest. discriminate.
  - rewrite countSuspiciousWallets_filter. fold m.
    unfold Map_values, Map_keys, len. f_equal.
    rewrite !length_map.
    clear. induction m as [| [k v] m IH]; cbn; [reflexivity |].
    destruct (countsAsSuspicious v); cbn; now rewrite IH.
Qed.

Lemma countsAsSuspicious_perm (times times' : list Z) :
  Permutation times times' ->
  countsAsSuspicious times = countsAsSuspicious times'.
Proof.
  intros Hp. unfold countsAsSuspicious.
  now rewrite (len_perm _ _ Hp), (Array_sort_ascending_perm _ _ Hp).
Qed.

Lemma countSuspiciousWallets_perm (l l' : list TokenTransfer) :
  Permutation l l' -> countSuspiciousWallets l = countSuspiciousWallets l'.
Proof.
  intros Hp.
  destruct (countSuspiciousWallets_wallets l) as [ws [Hnd [Hin ->]]].
  destruct (countSuspiciousWallets_wallets l') as [ws' [Hnd' [Hin' ->]]].
  apply len_perm. apply NoDup_Permutation; [exact Hnd | exact Hnd' |].
  intros w. rewrite Hin, Hin'.
  now rewrite (countsAsSuspicious_perm _ _ (timesOf_perm w l l' Hp)).
Qed.

Lemma Set_of_perm (l l' : list string) :
  Permutation l l' -> len (Set_of l) = len (Set_of l').
Proof.
  intros Hp.
  destruct (Set_of_spec l) as [Hnd Hin], (Set_of_spec l') as [Hnd' Hin'].
  apply len_perm. apply NoDup_Permutation; [exact Hnd | exact Hnd' |].
  intros w. rewrite Hin, Hin'. split; apply Permutation_in;
    [exact Hp | symmetry; exact Hp].
Qed.

Lemma getPeriodString_perm (l l' : list TokenTransfer) :
  Permutation l l' -> getPeriodString l = getPeriodString l'.
Proof.
  intros Hp. unfold getPeriodString.
  rewrite (len_perm _ _ Hp).
  now rewrite (Array_sort_ascending_perm _ _ (Permutation_map timestamp Hp)).
Qed.

Lemma timing_score_perm (l l' : list TokenTransfer) :
  Permutation l l' ->
  fst (analyzeTimeClustering l') = fst (analyzeTimeClustering l).
Proof.
  intros Hp. unfold analyzeTimeClustering.
  rewrite (len_perm _ _ Hp). destruct (len l' <? 2)%Z; cbn; [reflexivity |].
  apply timingOfSorted_timestamps. rewrite !timestamps_sort.
  apply Array_sort_ascending_perm. symmetry. now apply Permutation_map.
Qed.

Lemma analyzeBundlingPatterns_perm (l l' : list TokenTransfer) :
  Permutation l l' ->
  fst (analyzeBundlingPatterns l) = fst (analyzeBundlingPatterns l').
Proof.
  intros Hp.
  pose proof (analyzeBundlingPatterns_array_perm l) as Hs.
  pose proof (analyzeBundlingPatterns_array_perm l') as Hs'.
  pose proof (timing_score_perm l l' Hp) as Ht.
  unfold analyzeBundlingPatterns in *.
  destruct (analyzeTimeClustering l) as [timingScore s].
  destruct (analyzeTimeClustering l') as [timingScore' s'].
  cbn in Hs, Hs', Ht. cbn [fst]. subst timingScore'.
  assert (Hss : Permutation s s').
  { rewrite Hs, Hp. symmetry. exact Hs'. }
  rewrite (analyzeWalletPatterns_perm _ _ Hss),
    (analyzeTransactionSizes_perm _ _ Hss),
    (analyzeDistribution_perm _ _ Hss),
    (countSuspiciousWallets_perm _ _ Hss),
    (getPeriodString_perm _ _ Hss), (len_perm _ _ Hp).
  rewrite (Set_of_perm (map from l ++ map to l) (map from l' ++ map to l')).
  - reflexivity.
  - apply Permutation_app; now apply Permutation_map.
Qed.

(** ** The array after the call *)

Lemma Array_sort_sorted_id (l : list TokenTransfer) :
  StronglySorted Z.le (map timestamp l) -> Array_sort byTimestamp l = l.
Proof.
  induction l as [| x l IH]; cbn [map]; intros Hs.
  - reflexivity.
  - inversion Hs as [| ? ? Hs' Hall]; subst.
    change (Array_sort byTimestamp (x :: l))
      with (insert_by byTimestamp x (Array_sort byTimestamp l)).
    rewrite (IH Hs'). destruct l as [| y l]; cbn.
    + reflexivity.
    + unfold byTimestamp. inversion Hall as [| ? ? Hxy _]; subst.
      destruct (Z.leb_spec (timestamp x - timestamp y) 0); [reflexivity | lia].
Qed.

Lemma analyzeBundlingPatterns_array_sorted (transfers : list TokenTransfer) :
  StronglySorted Z.le (map timestamp (snd (analyzeBundlingPatterns transfers))).
Proof.
  rewrite analyzeBundlingPatterns_array.
  destruct (Z.ltb_spec (len transfers) 2) as [Hlt | Hge].
  - destruct transfers as [| a [| b l]].
    + constructor.
    + repeat constructor.
    + unfold len in Hlt. cbn in Hlt. lia.
  - rewrite timestamps_sort. apply Array_sort_ascending_sorted.
Qed.

(** The array the analysis leaves behind holds the records of the input,
    each as often as before, in ascending order of their timestamps. *)
Theorem array_after_analysis (transfers : list TokenTransfer) :
  let after := snd (analyzeBundlingPatterns transfers) in
  Permutation after transfers /\
  StronglySorted Z.le (map timestamp after).
Proof.
  split.
  - apply analyzeBundlingPatterns_array_perm.
  - apply analyzeBundlingPatterns_array_sorted.
Qed.

(** Analysing the array a first analysis left behind gives the same
    result again and leaves the array as it is. *)
Theorem second_analysis_same (transfers : list TokenTransfer) :
  let after := snd (analyzeBundlingPatterns transfers) in
  analyzeBundlingPatterns after = (fst (analyzeBundlingPatterns transfers), after).
Proof.
  intros after.
  rewrite (surjective_pairing (analyzeBundlingPatterns after)). f_equal.
  - apply analyzeBundlingPatterns_perm. apply analyzeBundlingPatterns_array_perm.
  - rewrite analyzeBundlingPatterns_array.
    destruct (len after <? 2)%Z; [reflexivity |].
    apply Array_sort_sorted_id. apply analyzeBundlingPatterns_array_sorted.
Qed.

(** An input whose timestamps are already in ascending order is left as
    it is. *)
Theorem sorted_input_unchanged (transfers : list TokenTransfer) :
  StronglySorted Z.le (map timestamp transfers) ->
  snd (analyzeBundlingPatterns transfers) = transfers.
Proof.
  intros Hs. rewrite analyzeBundlingPatterns_array.
  destruct (len transfers <? 2)%Z; [reflexivity |].
  now apply Array_sort_sorted_id.
Qed.

Lemma clusterLoop_all_within (windowMs : Z) (rest : list TokenTransfer) :
  forall prev cur clusters,
    Forall (fun g => (g <= windowMs * 1000)%Z)
      (consecutiveGaps (map timestamp (prev :: rest))) ->
    clusterLoop windowMs prev rest cur clusters = (cur ++ rest, clusters).
Proof.
  induction rest as [| x rest IH]; intros prev cur clusters Hg.
  - cbn. now rewrite app_nil_r.
  - cbn [clusterLoop]. cbn in Hg. inversion Hg as [| ? ? Hx Hrest]; subst.
    destruct (Z.leb_spec (timestamp x - timestamp prev) (windowMs * 1000));
      [| lia].
    rewrite (IH x (push cur x) clusters Hrest).
    unfold push. now rewrite <- app_assoc.
Qed.

Lemma clusterLoop_none_within (windowMs : Z) (rest : list TokenTransfer) :
  forall prev cur clusters,
    Forall (fun g => (windowMs * 1000 < g)%Z)
      (consecutiveGaps (map timestamp (prev :: rest))) ->
    (len cur <= 1)%Z ->
    snd (clusterLoop windowMs prev rest cur clusters) = clusters /\
    (len (fst (clusterLoop windowMs prev rest cur clusters)) <= 1)%Z.
Proof.
  induction rest as [| x rest IH]; intros prev cur clusters Hg Hcur.
  - cbn. auto.
  - cbn [clusterLoop]. cbn in Hg. inversion Hg as [| ? ? Hx Hrest]; subst.
    destruct (Z.leb_spec (timestamp x - timestamp prev) (windowMs * 1000));
      [lia |].
    destruct (Z.gtb_spec (len cur) 1) as [Hgt | _]; [lia |].
    apply IH; [exact Hrest | unfold len; cbn; lia].
Qed.

Lemma clusterScore_le_100 (windowMs : Z) (sorted : list TokenTransfer) :
  (clusterScore windowMs sorted <= 100)%R.
Proof. apply Rmin_l. Qed.

Lemma timingOfSorted_all_within (sorted : list TokenTransfer) :
  (2 <= len sorted)%Z ->
  Forall (fun g => (g <= 300000)%Z) (consecutiveGaps (map timestamp sorted)) ->
  timingOfSorted sorted = 100%Z.
Proof.
  intros Hlen Hg.
  assert (Hc : clusterScore 300 sorted = 100%R).
  { unfold clusterScore, clustersOf.
    destruct sorted as [| s0 rest]; [unfold len in Hlen; cbn in Hlen; lia |].
    rewrite (clusterLoop_all_within 300 rest s0 [s0] [] Hg).
    change ([s0] ++ rest) with (s0 :: rest).
    destruct (Z.gtb_spec (len (s0 :: rest)) 1) as [_ | Hle]; [| lia].
    unfold maxClusterSize, push. cbn [app map fold_right].
    rewrite Z.max_l by (unfold len; lia).
    assert (Hn : (2 <= IZR (len (s0 :: rest)))%R) by now apply IZR_le.
    replace (IZR (len (s0 :: rest)) / IZR (len (s0 :: rest)) * 200)%R
      with 200%R by (field; lra).
    apply Rmin_left. lra. }
  unfold timingOfSorted. cbn [timeWindows fold_left]. rewrite Hc.
  pose proof (clusterScore_le_100 30 sorted).
  pose proof (clusterScore_le_100 60 sorted).
  rewrite (Rmax_right _ 100%R).
  - apply Math_round_IZR.
  - repeat apply Rmax_lub; lra.
Qed.

Lemma timingOfSorted_none_within (sorted : list TokenTransfer) :
  Forall (fun g => (300000 < g)%Z) (consecutiveGaps (map timestamp sorted)) ->
  timingOfSorted sorted = 0%Z.
Proof.
  intros Hg.
  assert (Hc : forall w, (w <= 300)%Z -> clusterScore w sorted = 0%R).
  { intros w Hw. unfold clusterScore, clustersOf.
    destruct sorted as [| s0 rest].
    - cbn. unfold Rdiv. rewrite !Rmult_0_l. apply Rmin_right. lra.
    - assert (Hg' : Forall (fun g => (w * 1000 < g)%Z)
                      (consecutiveGaps (map timestamp (s0 :: rest))))
        by (eapply Forall_impl; [| exact Hg]; cbn; intros; lia).
      destruct (clusterLoop_none_within w rest s0 [s0] [] Hg')
        as [Hsnd Hfst]; [unfold len; cbn; lia |].
      destruct (clusterLoop w s0 rest [s0] []) as [cur cl].
      cbn in Hsnd, Hfst. subst cl.
      destruct (Z.gtb_spec (len cur) 1) as [Hgt | _]; [lia |].
      unfold maxClusterSize. cbn [map fold_right].
      unfold Rdiv. rewrite !Rmult_0_l. apply Rmin_right. lra. }
  unfold timingOfSorted. cbn [timeWindows fold_left].
  rewrite !Hc by lia. minmax. apply Math_round_IZR.
Qed.

(** When at least two transfers are given and, in time order, each is
    at most 300 000 ms after the one before, the timing score is 100. *)
Theorem timing_full_when_chained (transfers : list TokenTransfer) :
  (2 <= len transfers)%Z ->
  Forall (fun g => (g <= 300000)%Z)
    (consecutiveGaps (Array_sort ascending (map timestamp transfers))) ->
  fst (analyzeTimeClustering transfers) = 100%Z.
Proof.
  intros Hlen Hg. unfold analyzeTimeClustering.
  destruct (Z.ltb_spec (len transfers) 2); [lia |]. cbn [fst].
  apply timingOfSorted_all_within.
  - now rewrite Array_sort_length.
  - now rewrite timestamps_sort.
Qed.

(** When, in time order, each transfer is more than 300 000 ms after the
    one before, the timing score is 0. *)
Theorem timing_zero_when_spread (transfers : list TokenTransfer) :
  Forall (fun g => (300000 < g)%Z)
    (consecutiveGaps (Array_sort ascending (map timestamp transfers))) ->
  fst (analyzeTimeClustering transfers) = 0%Z.
Proof.
  intros Hg. unfold analyzeTimeClustering.
  destruct (len transfers <? 2)%Z; [reflexivity |]. cbn [fst].
  apply timingOfSorted_none_within. now rewrite timestamps_sort.
Qed.

(** ** Lists of one value *)

Lemma sum_constant (c : R) (xs : list R) :
  Forall (eq c) xs -> sum xs = (IZR (len xs) * c)%R.
Proof.
  induction 1 as [| x xs Hx Hxs IH].
  - unfold sum, len. cbn. lra.
  - rewrite sum_cons, len_cons, IH. subst x. lra.
Qed.

Lemma mean_constant (c : R) (xs : list R) :
  Forall (eq c) xs -> xs <> [] -> (sum xs / IZR (len xs))%R = c.
Proof.
  intros Hall Hne. rewrite (sum_constant c xs Hall).
  assert (Hn : (1 <= IZR (len xs))%R).
  { apply IZR_le. destruct xs; [contradiction | unfold len; cbn; lia]. }
  field. lra.
Qed.

Lemma sumSquaredDeviations_constant (c : R) (xs : list R) :
  Forall (eq c) xs -> sumSquaredDeviations xs c = 0%R.
Proof.
  intros Hall. rewrite sumSquaredDeviations_map.
  induction Hall as [| x xs Hx Hxs IH]; cbn [map].
  - reflexivity.
  - rewrite sum_cons, IH. subst x. lra.
Qed.

Lemma variance_constant (c : R) (xs : list R) :
  Forall (eq c) xs ->
  (sumSquaredDeviations xs (sum xs / IZR (len xs)) / IZR (len xs))%R = 0%R.
Proof.
  intros Hall. destruct xs as [| x xs].
  - unfold sumSquaredDeviations. cbn. unfold Rdiv. now rewrite Rmult_0_l.
  - rewrite (mean_constant c (x :: xs) Hall) by discriminate.
    rewrite (sumSquaredDeviations_constant c _ Hall).
    unfold Rdiv. now rewrite Rmult_0_l.
Qed.

(** ** Identical amounts, identical counts, identical totals *)


Lemma countTransfers_constant (transfers : list TokenTransfer) (k : Z) :
  (forall w, In w (map to transfers) -> len (timesOf w transfers) = k) ->
  Forall (eq (IZR k)) (Map_values (countTransfers transfers)).
Proof.
  intros Hk. destruct (countTransfers_spec transfers) as [Hnd Hget].
  apply Forall_forall. intros v Hv. unfold Map_values in Hv.
  apply in_map_iff in Hv as [[w v'] [Heq Hin]]. cbn in Heq. subst v'.
  apply Map_get_In in Hin; [| exact Hnd].
  destruct (Hget w) as [H1 H2].
  destruct (in_dec string_dec w (map to transfers)) as [Hw | Hn].
  - rewrite (H1 Hw) in Hin. injection Hin as <-. now rewrite (Hk w Hw).
  - rewrite (H2 Hn) in Hin. discriminate.
Qed.

(** When every receiving wallet receives the same number of transfers,
    the wallet-similarity score is 100. *)
Theorem identical_counts_wallet_score (transfers : list TokenTransfer) (k : Z) :
  (forall w, In w (map to transfers) -> len (timesOf w transfers) = k) ->
  analyzeWalletPatterns transfers = 100%Z.
Proof.
  intros Hk. unfold analyzeWalletPatterns.
  rewrite (variance_constant (IZR k) _ (countTransfers_constant transfers k Hk)).
  destruct (Rlt_dec 0 0) as [H | _]; [lra |]. minmax. rounds.
Qed.





(** ** The Gini value of few wallets *)

Lemma innerLoop_bound_member (ai : R) (amounts : list R) (gini : R) :
  (0 <= ai)%R -> Forall (fun x => (0 <= x)%R) amounts -> In ai amounts ->
  (fold_left (fun gini aj => gini + Rabs (ai - aj)) amounts gini
   <= gini + (IZR (len amounts) * ai + sum amounts - 2 * ai))%R.
Proof.
  intros Hai Hall. revert gini.
  induction Hall as [| aj l Haj Hl IH]; intros gini Hin; [destruct Hin |].
  cbn [fold_left]. rewrite len_cons, sum_cons.
  destruct (Req_dec_T aj ai) as [-> | Hne].
  - pose proof (innerLoop_bounds ai l (gini + Rabs (ai - ai)) Hai Hl) as [_ Hb].
    rewrite Rminus_diag, Rabs_R0 in *. lra.
  - destruct Hin as [Heq | Hin]; [contradiction |].
    specialize (IH (gini + Rabs (ai - aj))%R Hin).
    assert (Rabs (ai - aj) <= ai + aj)%R
      by (unfold Rabs; destruct (Rcase_abs _); lra).
    lra.
Qed.

Lemma outerLoop_bound_members (amounts rest : list R) (gini : R) :
  Forall (fun x => (0 <= x)%R) amounts -> incl rest amounts ->
  (fold_left
     (fun gini ai =>
        fold_left (fun gini aj => gini + Rabs (ai - aj)) amounts gini)
     rest gini
   <= gini + (IZR (len amounts) * sum rest + IZR (len rest) * sum amounts
              - 2 * sum rest))%R.
Proof.
  intros Hall. revert gini.
  induction rest as [| ai rest IH]; intros gini Hincl; cbn [fold_left].
  - unfold len, sum. cbn. lra.
  - assert (Hin : In ai amounts) by (apply Hincl; now left).
    assert (Hai : (0 <= ai)%R) by (rewrite Forall_forall in Hall; now apply Hall).
    pose proof (innerLoop_bound_member ai amounts gini Hai Hall Hin) as Hb.
    assert (Hincl' : incl rest amounts)
      by (intros x Hx; apply Hincl; now right).
    specialize (IH (fold_left (fun gini aj => gini + Rabs (ai - aj))%R
                      amounts gini) Hincl').
    rewrite len_cons, sum_cons. lra.
Qed.

Lemma pairwiseDifferences_bound (amounts : list R) :
  Forall (fun x => (0 <= x)%R) amounts ->
  (pairwiseDifferences amounts
   <= 2 * (IZR (len amounts) - 1) * sum amounts)%R.
Proof.
  intros Hall. unfold pairwiseDifferences.
  pose proof (outerLoop_bound_members amounts amounts 0 Hall
                (incl_refl amounts)). lra.
Qed.

Lemma sumAmounts_receivers (transfers : list TokenTransfer) :
  len (Map_values (sumAmounts transfers)) = len (receivers transfers).
Proof.
  destruct (sumAmounts_spec transfers) as [Hnd Hget].
  unfold Map_values, len. rewrite length_map, <- (length_map fst).
  fold (Map_keys (sumAmounts transfers)). f_equal.
  apply Permutation_length, NoDup_Permutation;
    [exact Hnd | apply NoDup_nodup |].
  intros w. unfold receivers. rewrite nodup_In, Map_get_keys.
  destruct (Hget w) as [H1 H2]. split.
  - intros Hne. destruct (in_dec string_dec w (map to transfers)) as [Hin | Hn];
      [exact Hin | now rewrite (H2 Hn) in Hne].
  - intros Hin. rewrite (H1 Hin). discriminate.
Qed.

Lemma Math_round_upper (x : R) : (IZR (Math_round x) <= x + / 2)%R.
Proof. unfold Math_round. apply base_Int_part. Qed.

Lemma distribution_bound (transfers : list TokenTransfer) :
  nonNegativeAmounts transfers ->
  let n := len (receivers transfers) in
  (1 <= n)%Z ->
  (2 * n * analyzeDistribution transfers <= 200 * (n - 1) + n)%Z.
Proof.
  intros Hnn n Hn. unfold analyzeDistribution.
  set (amounts := Array_sort descending (Map_values (sumAmounts transfers))).
  assert (Hall : Forall (fun x => (0 <= x)%R) amounts).
  { eapply Permutation_Forall;
      [symmetry; apply Array_sort_perm | now apply sumAmounts_nonneg]. }
  assert (Hlen : len amounts = n).
  { unfold amounts. now rewrite Array_sort_length, sumAmounts_receivers. }
  rewrite Hlen.
  destruct (n <? 2)%Z; [lia |].
  destruct (Req_dec_T (sum amounts) 0) as [_ | Hne]; [lia |].
  pose proof (sum_nonneg amounts Hall) as Hsum.
  pose proof (pairwiseDifferences_bound amounts Hall) as Hb.
  rewrite Hlen in Hb.
  assert (HnR : (1 <= IZR n)%R) by now apply IZR_le.
  set (g := (pairwiseDifferences amounts / (2 * IZR n * sum amounts))%R).
  assert (Hg : (IZR n * g <= IZR n - 1)%R).
  { unfold g.
    replace (IZR n * (pairwiseDifferences amounts / (2 * IZR n * sum amounts)))%R
      with (pairwiseDifferences amounts / (2 * sum amounts))%R
      by (field; lra).
    apply Rmult_le_reg_r with (2 * sum amounts)%R; [lra |].
    unfold Rdiv. rewrite Rmult_assoc, Rinv_l by lra. lra. }
  pose proof (Math_round_upper (g * 100)) as Hr.
  apply le_IZR. rewrite plus_IZR, !mult_IZR, minus_IZR.
  assert (IZR n * IZR (Math_round (g * 100)) <= IZR n * (g * 100 + / 2))%R
    by (apply Rmult_le_compat_l; lra).
  lra.
Qed.

Lemma receivers_perm (l l' : list TokenTransfer) :
  Permutation l l' -> len (receivers l) = len (receivers l').
Proof.
  intros Hp. apply len_perm. unfold receivers.
  apply NoDup_Permutation; [apply NoDup_nodup | apply NoDup_nodup |].
  intros w. rewrite !nodup_In. split; apply Permutation_in;
    [apply Permutation_map; exact Hp
    | apply Permutation_map; symmetry; exact Hp].
Qed.

Lemma concentration_concern_fires (overallScore : Z) (m : Metrics) :
  In "High token concentration among few holders"
    (primaryConcerns (generateInsights overallScore m)) ->
  (70 < distribution m)%Z.
Proof.
  destruct (generateInsights_pairs overallScore m) as [-> _].
  unfold insightPairs, ruleTable.
  destruct (Z.gtb_spec (distribution m) 70) as [Hgt | Hle]; [lia |].
  destruct (timingCluster m >? 70)%Z, (walletSimilarity m >? 60)%Z,
    (sizePatterns m >? 60)%Z; cbn; intros H;
    repeat (destruct H as [H | H]; [discriminate H |]); destruct H.
Qed.

Lemma analyzeBundlingPatterns_distribution (transfers : list TokenTransfer) :
  distribution (metrics (fst (analyzeBundlingPatterns transfers))) =
  analyzeDistribution (snd (analyzeBundlingPatterns transfers)).
Proof.
  unfold analyzeBundlingPatterns.
  destruct (analyzeTimeClustering transfers) as [timingScore sorted].
  reflexivity.
Qed.

(** With non-negative amounts, the concern about token concentration is
    raised only for lists with at least four distinct receiving
    wallets. *)
Theorem concentration_concern_needs_four_receivers
    (transfers : list TokenTransfer) :
  nonNegativeAmounts transfers ->
  In "High token concentration among few holders"
    (primaryConcerns (insights (fst (analyzeBundlingPatterns transfers)))) ->
  (4 <= len (receivers transfers))%Z.
Proof.
  intros Hnn Hin.
  rewrite analyzeBundlingPatterns_insights in Hin.
  apply concentration_concern_fires in Hin.
  rewrite analyzeBundlingPatterns_distribution in Hin.
  pose proof (analyzeBundlingPatterns_array_perm transfers) as Hp.
  set (after := snd (analyzeBundlingPatterns transfers)) in *.
  rewrite <- (receivers_perm after transfers Hp).
  assert (Hnn' : nonNegativeAmounts after).
  { unfold nonNegativeAmounts in *.
    eapply Permutation_Forall; [symmetry; exact Hp | exact Hnn]. }
  destruct (Z.le_gt_cases 1 (len (receivers after))) as [H1 | H0].
  - pose proof (distribution_bound after Hnn' H1) as Hb.
    cbv zeta in Hb. nia.
  - exfalso.
    assert (Hnil : receivers after = [])
      by (destruct (receivers after); [reflexivity | unfold len in H0; cbn in H0; lia]).
    assert (Hafter : after = []).
    { destruct after as [| t l]; [reflexivity |].
      assert (In (to t) (receivers (t :: l)))
        by (unfold receivers; apply nodup_In; now left).
      rewrite Hnil in H. destruct H. }
    rewrite Hafter in Hin. cbn in Hin. lia.
Qed.

(** ** Suspicious wallets and the number of transfers *)

Lemma timesOf_filter_other (w w' : string) (l : list TokenTransfer) :
  w <> w' ->
  timesOf w' (filter (fun t => negb (String.eqb (to t) w)) l) = timesOf w' l.
Proof.
  intros Hne. unfold timesOf. f_equal.
  induction l as [| t l IH]; cbn; [reflexivity |].
  destruct (String.eqb_spec (to t) w) as [Heq | Hneq]; cbn.
  - destruct (String.eqb_spec (to t) w'); [congruence | exact IH].
  - now rewrite IH.
Qed.

Lemma timesOf_total (wallets : list string) (l : list TokenTransfer) :
  NoDup wallets ->
  (list_sum (map (fun w => List.length (timesOf w l)) wallets)
   <= List.length l)%nat.
Proof.
  intros Hnd. revert l. unfold list_sum.
  induction Hnd as [| w ws Hnotin Hnd IH]; intros l; cbn [map fold_right].
  - lia.
  - specialize (IH (filter (fun t => negb (String.eqb (to t) w)) l)).
    assert (Hsame : map (fun w' => List.length
                      (timesOf w' (filter (fun t => negb (String.eqb (to t) w)) l))) ws
                    = map (fun w' => List.length (timesOf w' l)) ws).
    { apply map_ext_in. intros w' Hw'. rewrite timesOf_filter_other; [reflexivity |].
      intros ->. contradiction. }
    rewrite Hsame in IH.
    pose proof (filter_length (fun t => String.eqb (to t) w) l) as Hsplit.
    cbn beta in Hsplit. unfold timesOf at 1. rewrite length_map. lia.
Qed.

(** Twice the number of suspicious wallets is at most the number of
    transfers. *)
Theorem suspicious_wallets_at_most_half (transfers : list TokenTransfer) :
  (2 * countSuspiciousWallets transfers <= len transfers)%Z.
Proof.
  destruct (countSuspiciousWallets_wallets transfers) as [ws [Hnd [Hin ->]]].
  pose proof (timesOf_total ws transfers Hnd) as Htotal.
  assert (H2 : (2 * List.length ws
                <= list_sum (map (fun w => List.length (timesOf w transfers)) ws))%nat).
  { assert (Hall : forall w, In w ws -> (2 <= List.length (timesOf w transfers))%nat).
    { intros w Hw. apply Hin in Hw. unfold countsAsSuspicious in Hw.
      apply andb_true_iff in Hw as [Hlen _].
      unfold len in Hlen. rewrite Z.gtb_ltb, Z.ltb_lt in Hlen. lia. }
    clear Hin Hnd Htotal. unfold list_sum.
    induction ws as [| w ws IH]; cbn [map fold_right List.length].
    - lia.
    - assert (2 <= List.length (timesOf w transfers))%nat by (apply Hall; now left).
      assert (2 * List.length ws
              <= fold_right Nat.add 0%nat
                   (map (fun w => List.length (timesOf w transfers)) ws))%nat
        by (apply IH; intros; apply Hall; now right).
      lia. }
  unfold len. lia.
Qed.

(** ** The period of a short list *)

(** When any two transfers are less than 1 800 000 ms (half an hour)
    apart, the period string is "0h". *)
Theorem short_span_period (transfers : list TokenTransfer) :
  (forall a b, In a transfers -> In b transfers ->
               (timestamp b - timestamp a < 1800000)%Z) ->
  getPeriodString transfers = "0h".
Proof.
  intros Hspan. unfold getPeriodString.
  destruct (len transfers =? 0)%Z eqn:Hempty; [reflexivity |].
  set (times := Array_sort ascending (map timestamp transfers)).
  assert (Hne : times <> []).
  { intros Hnil. apply (f_equal (@len Z)) in Hnil. unfold times in Hnil.
    rewrite Array_sort_length in Hnil. unfold len in Hnil, Hempty.
    rewrite length_map in Hnil. cbn in Hnil. rewrite Hnil in Hempty. discriminate. }
  assert (Hmem : forall x, In x times -> exists t, In t transfers /\ timestamp t = x).
  { intros x Hx. unfold times in Hx.
    apply (Permutation_in _ (Array_sort_perm ascending _)) in Hx.
    apply in_map_iff in Hx as [t [Ht Hin]]. now exists t. }
  assert (Hlast : In (last times 0%Z) times).
  { destruct times as [| x l]; [contradiction |].
    clear. revert x. induction l as [| y l IH]; intros x; [now left |].
    right. apply (IH y). }
  assert (Hhd : In (hd 0%Z times) times)
    by (destruct times; [contradiction | now left]).
  destruct (Hmem _ Hlast) as [b [Hb Hbl]], (Hmem _ Hhd) as [a [Ha Hal]].
  pose proof (Hspan a b Ha Hb) as H1. pose proof (Hspan b a Hb Ha) as H2.
  rewrite Hbl, Hal in *.
  set (d := (last times 0 - hd 0 times)%Z) in *.
  assert (Hround : Math_round (IZR d / (1000 * 60 * 60)) = 0%Z).
  { apply Math_round_spec.
    assert (IZR d < 1800000)%R by (apply IZR_lt in H1; exact H1).
    assert (-1800000 < IZR d)%R.
    { assert (Hd : (-1800000 < d)%Z) by (unfold d; lia).
      apply IZR_lt in Hd. exact Hd. }
    lra. }
  rewrite Hround. reflexivity.
Qed.

(** ** What the extraction collects *)

Lemma orString_nonempty (s : option string) (d : string) :
  d <> "" -> orString s d <> "".
Proof.
  intros Hd. unfold orString. destruct s as [s |]; [| exact Hd].
  destruct (String.eqb_spec s ""); [exact Hd | assumption].
Qed.

Lemma extractTransfer_app (contractAddress sig : string) (ts slot : Z)
    (transfers : list TokenTransfer) (transfer : Enhanced.TokenTransferJson) :
  extractTransfer contractAddress sig ts slot transfers transfer =
  transfers ++ extractTransfer contractAddress sig ts slot [] transfer.
Proof.
  unfold extractTransfer, push.
  destruct (Enhanced.tokenAmount transfer) as [a |]; [| now rewrite app_nil_r].
  destruct (_ && _); [reflexivity | now rewrite app_nil_r].
Qed.

Lemma fold_left_appends {A B : Type} (f : list A -> B -> list A) :
  (forall acc b, f acc b = acc ++ f [] b) ->
  forall (l : list B) (acc : list A),
    fold_left f l acc = acc ++ fold_left f l [].
Proof.
  intros Hf. induction l as [| b l IH]; intros acc; cbn [fold_left].
  - now rewrite app_nil_r.
  - rewrite (IH (f acc b)), (IH (f [] b)), (Hf acc b). now rewrite app_assoc.
Qed.

Lemma extractTransaction_app (contractAddress : string)
    (transfers : list TokenTransfer) (entry : Enhanced.Entry) :
  extractTransaction contractAddress transfers entry =
  transfers ++ extractTransaction contractAddress [] entry.
Proof.
  unfold extractTransaction. destruct entry as [[tx |] now];
    [| now rewrite app_nil_r].
  destruct (Enhanced.transactionError tx); [now rewrite app_nil_r |].
  destruct (Enhanced.tokenTransfers tx) as [tts |]; [| now rewrite app_nil_r].
  apply fold_left_appends. intros acc b. apply extractTransfer_app.
Qed.

Lemma extractTransfers_acc (contractAddress : string)
    (enhancedData : list Enhanced.Entry) (transfers : list TokenTransfer) :
  extractTransfers contractAddress enhancedData transfers =
  transfers ++ extractTransfers contractAddress enhancedData [].
Proof.
  unfold extractTransfers. apply fold_left_appends.
  intros acc b. apply extractTransaction_app.
Qed.

(** The transfers extracted from two responses one after the other are
    those of the first followed by those of the second. *)
Theorem extractTransfers_concat (contractAddress : string)
    (first second : list Enhanced.Entry) :
  extractTransfers contractAddress (first ++ second) [] =
  extractTransfers contractAddress first []
  ++ extractTransfers contractAddress second [].
Proof.
  unfold extractTransfers at 1. rewrite fold_left_app.
  apply extractTransfers_acc.
Qed.

Lemma extractTransfer_wellFormed (contractAddress sig : string) (ts slot : Z)
    (transfers : list TokenTransfer) (transfer : Enhanced.TokenTransferJson) :
  Forall wellFormed transfers ->
  Forall wellFormed (extractTransfer contractAddress sig ts slot transfers transfer).
Proof.
  intros Hall. unfold extractTransfer, push.
  destruct (Enhanced.tokenAmount transfer) as [a |]; [| exact Hall].
  destruct (String.eqb _ _); cbn [andb]; [| exact Hall].
  destruct (Rlt_dec 0 a) as [Hpos | _]; [| exact Hall].
  apply Forall_app. split; [exact Hall |]. constructor; [| constructor].
  unfold wellFormed. cbn. repeat split; [exact Hpos | |];
    apply orString_nonempty; discriminate.
Qed.

Lemma extractTransaction_wellFormed (contractAddress : string)
    (transfers : list TokenTransfer) (entry : Enhanced.Entry) :
  Forall wellFormed transfers ->
  Forall wellFormed (extractTransaction contractAddress transfers entry).
Proof.
  intros Hall. unfold extractTransaction. destruct entry as [[tx |] now];
    [| exact Hall].
  destruct (Enhanced.transactionError tx); [exact Hall |].
  destruct (Enhanced.tokenTransfers tx) as [tts |]; [| exact Hall].
  revert transfers Hall. induction tts as [| b tts IH]; intros transfers Hall.
  - exact Hall.
  - cbn [fold_left]. apply IH. now apply extractTransfer_wellFormed.
Qed.

Lemma extractTransfers_wellFormed (contractAddress : string)
    (enhancedData : list Enhanced.Entry) (transfers : list TokenTransfer) :
  Forall wellFormed transfers ->
  Forall wellFormed (extractTransfers contractAddress enhancedData transfers).
Proof.
  unfold extractTransfers. revert transfers.
  induction enhancedData as [| e d IH]; intros transfers Hall.
  - exact Hall.
  - cbn [fold_left]. apply IH. now apply extractTransaction_wellFormed.
Qed.

(** Every transfer the extraction collects has a positive amount and
    non-empty sender and receiver. *)
Theorem extracted_transfers_wellFormed (contractAddress : string)
    (enhancedData : list Enhanced.Entry) :
  Forall wellFormed (extractTransfers contractAddress enhancedData []).
Proof. apply extractTransfers_wellFormed. constructor. Qed.

Lemma fold_left_concat {A B : Type} (f : list A -> B -> list A) :
  (forall acc b, f acc b = acc ++ f [] b) ->
  forall (l : list B) (acc : list A),
    fold_left f l acc = acc ++ List.concat (map (f []) l).
Proof.
  intros Hf. induction l as [| b l IH]; intros acc; cbn [fold_left map List.concat].
  - now rewrite app_nil_r.
  - rewrite (IH (f acc b)), (Hf acc b). now rewrite app_assoc.
Qed.

Lemma extractTransfer_In (contractAddress sig : string) (ts sl : Z)
    (transfer : Enhanced.TokenTransferJson) (t : TokenTransfer) :
  In t (extractTransfer contractAddress sig ts sl [] transfer) ->
  Enhanced.mint transfer = contractAddress /\
  Enhanced.tokenAmount transfer = Some (amount t) /\
  signature t = sig /\ timestamp t = ts /\ slot t = sl.
Proof.
  unfold extractTransfer, push.
  destruct (Enhanced.tokenAmount transfer) as [a |]; [| intros []].
  destruct (String.eqb_spec (Enhanced.mint transfer) contractAddress) as [Hm | _];
    cbn [andb]; [| intros []].
  destruct (Rlt_dec 0 a); [| intros []].
  intros [<- | []]. cbn. auto.
Qed.

(** Every transfer the extraction collects comes from a token transfer
    of the requested mint, with that amount, in a transaction of the
    response that is not null and carries no error, and bears the
    signature of that transaction. *)
Theorem extracted_transfers_of_the_token (contractAddress : string)
    (enhancedData : list Enhanced.Entry) (t : TokenTransfer) :
  In t (extractTransfers contractAddress enhancedData []) ->
  exists tx now tokenTransfers transfer,
    In (Some tx, now) enhancedData /\
    Enhanced.transactionError tx = false /\
    Enhanced.tokenTransfers tx = Some tokenTransfers /\
    In transfer tokenTransfers /\
    Enhanced.mint transfer = contractAddress /\
    Enhanced.tokenAmount transfer = Some (amount t) /\
    signature t = Enhanced.signature tx.
Proof.
  unfold extractTransfers.
  rewrite (fold_left_concat _ (extractTransaction_app contractAddress)).
  cbn [app]. intros Hin. apply in_concat in Hin as [ts [Hts Hin]].
  apply in_map_iff in Hts as [[[tx |] now] [<- He]]; [| destruct Hin].
  unfold extractTransaction in Hin.
  destruct (Enhanced.transactionError tx) eqn:Herr; [destruct Hin |].
  destruct (Enhanced.tokenTransfers tx) as [tts |] eqn:Htts; [| destruct Hin].
  rewrite (fold_left_concat _
             (fun acc b => extractTransfer_app contractAddress _ _ _ acc b))
    in Hin.
  cbn [app] in Hin. apply in_concat in Hin as [ts [Hts Hin]].
  apply in_map_iff in Hts as [transfer [<- Htr]].
  apply extractTransfer_In in Hin as [Hmint [Hamount [Hsig _]]].
  exists tx, now, tts, transfer. auto 8.
Qed.

Section RetrievalLoop.

Variable fetchSignatures :
  string -> string -> Z -> Settled Rpc.SignaturesData.
Variable fetchEnhanced :
  string -> nat -> list string -> Settled Enhanced.Response.

Lemma processBatch_acc (contractAddress apiKey : string)
    (signatures : list Rpc.SignatureResult) (i : Z)
    (transfers : list TokenTransfer) :
  processBatch fetchEnhanced contractAddress apiKey signatures i transfers =
  transfers ++ processBatch fetchEnhanced contractAddress apiKey signatures i [].
Proof.
  unfold processBatch.
  destruct (fetchEnhanced _ _ _) as [response | m]; [| now rewrite app_nil_r].
  destruct (negb (Enhanced.ok response)); [now rewrite app_nil_r |].
  destruct (Enhanced.json response) as [data | m]; [| now rewrite app_nil_r].
  apply extractTransfers_acc.
Qed.

Lemma processBatch_wellFormed (contractAddress apiKey : string)
    (signatures : list Rpc.SignatureResult) (i : Z)
    (transfers : list TokenTransfer) :
  Forall wellFormed transfers ->
  Forall wellFormed
    (processBatch fetchEnhanced contractAddress apiKey signatures i transfers).
Proof.
  intros Hall. unfold processBatch.
  destruct (fetchEnhanced _ _ _) as [response | m]; [| exact Hall].
  destruct (negb (Enhanced.ok response)); [exact Hall |].
  destruct (Enhanced.json response) as [data | m]; [| exact Hall].
  now apply extractTransfers_wellFormed.
Qed.

Lemma batchLoop_wellFormed (rounds : nat) (contractAddress apiKey : string)
    (signatures : list Rpc.SignatureResult) :
  forall (i : Z) (transfers : list TokenTransfer),
    Forall wellFormed transfers ->
    Forall wellFormed
      (batchLoop fetchEnhanced rounds contractAddress apiKey signatures i
         transfers).
Proof.
  induction rounds as [| rounds IH]; intros i transfers Hall; cbn [batchLoop].
  - exact Hall.
  - destruct (i <? Z.min (len signatures) 20)%Z; [| exact Hall].
    apply IH. now apply processBatch_wellFormed.
Qed.

Lemma batchLoop_unrolled (rounds : nat) (contractAddress apiKey : string)
    (signatures : list Rpc.SignatureResult) :
  let batch i :=
    if (i <? Z.min (len signatures) 20)%Z
    then processBatch fetchEnhanced contractAddress apiKey signatures i []
    else [] in
  batchLoop fetchEnhanced (3 + rounds) contractAddress apiKey signatures 0 [] =
  batch 0%Z ++ batch 10%Z.
Proof.
  intros batch. subst batch. cbn [Nat.add batchLoop].
  change (0 + 10)%Z with 10%Z. change (10 + 10)%Z with 20%Z.
  destruct (Z.ltb_spec 0 (Z.min (len signatures) 20)) as [H0 | H0].
  - destruct (Z.ltb_spec 10 (Z.min (len signatures) 20)) as [H10 | H10].
    + destruct (Z.ltb_spec 20 (Z.min (len signatures) 20)); [lia |].
      apply processBatch_acc.
    + now rewrite app_nil_r.
  - destruct (Z.ltb_spec 10 (Z.min (len signatures) 20)); [lia | reflexivity].
Qed.

Lemma reduced_wellFormed (contractAddress : string) (limit : Z)
    (apiKey : string) (transfers : list TokenTransfer) :
  getTokenTransfersWithReducedLimit fetchSignatures fetchEnhanced
    contractAddress limit apiKey = Fulfilled transfers ->
  Forall wellFormed transfers.
Proof.
  unfold getTokenTransfersWithReducedLimit.
  destruct (fetchSignatures _ _ _) as [data | m]; [| discriminate].
  destruct (Rpc.error data); [discriminate |].
  destruct (len _ =? 0)%Z; [discriminate |].
  destruct (fetchEnhanced _ _ _) as [response | m]; [| discriminate].
  destruct (negb (Enhanced.ok response)); [discriminate |].
  destruct (Enhanced.json response) as [enhancedData | m]; [| discriminate].
  intros [= <-]. apply extractTransfers_wellFormed. constructor.
Qed.

Lemma getTokenTransfers_Forall (contractAddress : string)
    (period : Period) (apiKey : string) (transfers : list TokenTransfer) :
  getTokenTransfers fetchSignatures fetchEnhanced contractAddress period
    apiKey = Fulfilled transfers ->
  Forall wellFormed transfers.
Proof.
  unfold getTokenTransfers.
  destruct (fetchSignatures _ _ _) as [data | m]; [| discriminate].
  destruct (Rpc.error data) as [e |].
  - destruct (Rpc.message e) as [m |]; [| discriminate].
    destruct (includes m "long-term storage"); [| discriminate].
    apply reduced_wellFormed.
  - destruct (len _ =? 0)%Z; [discriminate |].
    match goal with
    | |- context [batchLoop ?f ?n ?a ?k ?s ?i ?t] =>
        pose proof (batchLoop_wellFormed n a k s i t (Forall_nil _)) as Hwf;
        set (ts := batchLoop f n a k s i t) in *
    end.
    destruct (len ts =? 0)%Z; [discriminate |].
    intros Heq. injection Heq as <-. exact Hwf.
Qed.

(** [getTokenTransfers] is fulfilled with the empty list only through
    the fallback taken when the RPC reports a long-term storage error. *)
Theorem getTokenTransfers_empty (contractAddress : string)
    (period : Period) (apiKey : string) :
  getTokenTransfers fetchSignatures fetchEnhanced contractAddress period
    apiKey = Fulfilled [] ->
  exists limit data e m,
    fetchSignatures apiKey contractAddress limit = Fulfilled data /\
    Rpc.error data = Some e /\ Rpc.message e = Some m /\
    includes m "long-term storage" = true.
Proof.
  unfold getTokenTransfers.
  set (limit := match period with recent => 50%Z | _ => 25%Z end).
  destruct (fetchSignatures apiKey contractAddress limit) as [data | m] eqn:Hf;
    [| discriminate].
  destruct (Rpc.error data) as [e |] eqn:He.
  - destruct (Rpc.message e) as [m |] eqn:Hm; [| discriminate].
    destruct (includes m "long-term storage") eqn:Hi; [| discriminate].
    intros _. exists limit, data, e, m. auto.
  - destruct (len _ =? 0)%Z; [discriminate |].
    match goal with
    | |- context [batchLoop ?f ?n ?a ?k ?s ?i ?t] =>
        set (ts := batchLoop f n a k s i t) in *
    end.
    destruct (len ts =? 0)%Z eqn:Hlen; [discriminate |].
    intros Heq. injection Heq as Hnil. rewrite Hnil in Hlen. discriminate.
Qed.

End RetrievalLoop.

Lemma sliceSignatures_first_twenty (signatures : list Rpc.SignatureResult)
    (i : Z) :
  (0 <= i <= 10)%Z ->
  sliceSignatures (firstn 20 signatures) i (i + 10) =
  sliceSignatures signatures i (i + 10).
Proof.
  intros Hi. unfold sliceSignatures. f_equal.
  rewrite skipn_firstn_comm, firstn_firstn. f_equal. lia.
Qed.

Lemma len_first_twenty {A : Type} (l : list A) :
  Z.min (len (firstn 20 l)) 20 = Z.min (len l) 20.
Proof. unfold len. rewrite length_firstn. lia. Qed.

Section FirstTwenty.

Variable fetchSignatures :
  string -> string -> Z -> Settled Rpc.SignaturesData.
Variable fetchEnhanced :
  string -> nat -> list string -> Settled Enhanced.Response.

Lemma processBatch_first_twenty (contractAddress apiKey : string)
    (signatures : list Rpc.SignatureResult) (i : Z)
    (transfers : list TokenTransfer) :
  (0 <= i <= 10)%Z ->
  processBatch fetchEnhanced contractAddress apiKey (firstn 20 signatures) i
    transfers =
  processBatch fetchEnhanced contractAddress apiKey signatures i transfers.
Proof.
  intros Hi. unfold processBatch.
  now rewrite (sliceSignatures_first_twenty signatures i Hi).
Qed.

(** The loop over the batches looks at the first twenty signatures
    only. *)
Theorem batchLoop_first_twenty (contractAddress apiKey : string)
    (signatures : list Rpc.SignatureResult) :
  batchLoop fetchEnhanced 3 contractAddress apiKey (firstn 20 signatures) 0 [] =
  batchLoop fetchEnhanced 3 contractAddress apiKey signatures 0 [].
Proof.
  pose proof (batchLoop_unrolled fetchEnhanced 0 contractAddress apiKey
                signatures) as H.
  pose proof (batchLoop_unrolled fetchEnhanced 0 contractAddress apiKey
                (firstn 20 signatures)) as H'.
  change (3 + 0)%nat with 3%nat in H, H'. cbv zeta in H, H'.
  rewrite H, H', len_first_twenty.
  now rewrite !processBatch_first_twenty by lia.
Qed.

End FirstTwenty.

(** ** analyzeToken *)

Lemma prefix_append (s t : string) : prefix s (s ++ t)%string = true.
Proof.
  induction s as [| a s IH]; cbn.
  - destruct t; reflexivity.
  - destruct (ascii_dec a a); [exact IH | contradiction].
Qed.

(** [analyzeToken] is fulfilled with a result exactly when the API key is
    not empty and the retrieval is fulfilled with a non-empty list, and
    the result is then the analysis of that list. *)
Theorem analyzeToken_fulfilled
    (getTokenTransfers :
       string -> Period -> string -> Settled (list TokenTransfer))
    (contractAddress : string) (period : Period) (apiKey : string)
    (r : AnalysisResult) :
  analyzeToken getTokenTransfers contractAddress period apiKey = Fulfilled r
  <->
  apiKey <> "" /\
  exists transfers,
    getTokenTransfers contractAddress period apiKey = Fulfilled transfers /\
    transfers <> [] /\
    r = fst (analyzeBundlingPatterns transfers).
Proof.
  unfold analyzeToken. split.
  - destruct (String.eqb_spec apiKey "") as [_ | Hkey]; [discriminate |].
    destruct (getTokenTransfers contractAddress period apiKey)
      as [transfers | m]; [| discriminate].
    destruct (Z.eqb_spec (len transfers) 0) as [_ | Hlen]; [discriminate |].
    intros Heq. injection Heq as <-. split; [exact Hkey |].
    exists transfers. repeat split. intros ->. now apply Hlen.
  - intros [Hkey [transfers [-> [Hne ->]]]].
    destruct (String.eqb_spec apiKey ""); [contradiction |].
    destruct (Z.eqb_spec (len transfers) 0) as [Hlen | _]; [| reflexivity].
    destruct transfers; [contradiction | unfold len in Hlen; cbn in Hlen; lia].
Qed.

(** With an API key given, every error of [analyzeToken] starts with
    "Analysis failed: ", and an error of the retrieval is passed on
    behind that prefix. *)
Theorem analyzeToken_rejected
    (getTokenTransfers :
       string -> Period -> string -> Settled (list TokenTransfer))
    (contractAddress : string) (period : Period) (apiKey message : string) :
  apiKey <> "" ->
  analyzeToken getTokenTransfers contractAddress period apiKey =
    Rejected message ->
  prefix "Analysis failed: " message = true /\
  (forall m, getTokenTransfers contractAddress period apiKey = Rejected m ->
             message = ("Analysis failed: " ++ m)%string).
Proof.
  intros Hkey. unfold analyzeToken.
  destruct (String.eqb_spec apiKey ""); [contradiction |].
  destruct (getTokenTransfers contractAddress period apiKey)
    as [transfers | m0].
  - destruct (len transfers =? 0)%Z; [| discriminate].
    intros Heq. injection Heq as <-. split; [reflexivity | discriminate].
  - intros Heq. injection Heq as <-. split.
    + apply (prefix_append "Analysis failed: " m0).
    + intros m Hm. injection Hm as ->. reflexivity.
Qed.

(** ** The badge and the risk level *)

(** The label of the badge and the risk level of the insights are the
    same text exactly when the score is at least 60. *)
Theorem badge_agrees_from_sixty (transfers : list TokenTransfer) :
  let r := fst (analyzeBundlingPatterns transfers) in
  getScoreLabel (score r) = riskLevel (insights r) <-> (60 <= score r)%Z.
Proof.
  intros r. subst r. rewrite analyzeBundlingPatterns_insights.
  set (s := score (fst (analyzeBundlingPatterns transfers))).
  unfold getScoreLabel, generateInsights.
  destruct (timingCluster _ >? 70)%Z, (walletSimilarity _ >? 60)%Z,
    (sizePatterns _ >? 60)%Z, (distribution _ >? 70)%Z; cbn [riskLevel];
  destruct (Z.geb_spec s 80), (Z.geb_spec s 60), (Z.geb_spec s 40);
    split; intros Hgoal; try lia; try reflexivity; try discriminate Hgoal.
Qed.

Lemma wellFormed_nonNegative (transfers : list TokenTransfer) :
  Forall wellFormed transfers -> nonNegativeAmounts transfers.
Proof.
  unfold nonNegativeAmounts. apply Forall_impl.
  intros t [Hpos _]. lra.
Qed.

(** Whatever the remote calls answer, a result that [analyzeToken]
    fulfils on retrieved transfers counts at least one transaction and
    has its timing and wallet-similarity scores between 0 and 100. *)
Theorem retrieved_analysis_counts
    (fetchSignatures : string -> string -> Z -> Settled Rpc.SignaturesData)
    (fetchEnhanced :
       string -> nat -> list string -> Settled Enhanced.Response)
    (contractAddress : string) (period : Period) (apiKey : string)
    (r : AnalysisResult) :
  analyzeToken (getTokenTransfers fetchSignatures fetchEnhanced)
    contractAddress period apiKey = Fulfilled r ->
  (1 <= totalTransactions (details r))%Z /\
  (0 <= timingCluster (metrics r) <= 100)%Z /\
  (0 <= walletSimilarity (metrics r) <= 100)%Z.
Proof.
  unfold analyzeToken.
  destruct (String.eqb apiKey ""); [discriminate |].
  destruct (getTokenTransfers fetchSignatures fetchEnhanced contractAddress
              period apiKey) as [transfers | m]; [| discriminate].
  destruct (Z.eqb_spec (len transfers) 0) as [_ | Hlen]; [discriminate |].
  intros Heq. injection Heq as <-.
  destruct (analyzeBundlingPatterns_details transfers) as [-> _].
  split; [unfold len in *; lia |].
  pose proof (analyzeTimeClustering_range transfers) as Htiming.
  unfold analyzeBundlingPatterns.
  destruct (analyzeTimeClustering transfers) as [timingScore sorted].
  cbn in Htiming. cbn.
  split; [exact Htiming | apply analyzeWalletPatterns_range].
Qed.

(** ** The order of the input *)

(** The number of suspicious wallets of a permutation of a list is that
    of the list. *)
Theorem suspicious_count_order_independent
    (transfers permuted : list TokenTransfer) :
  Permutation transfers permuted ->
  countSuspiciousWallets transfers = countSuspiciousWallets permuted.
Proof.
  intros Hp.
  destruct (countSuspiciousWallets_wallets transfers) as [ws [Hnd [Hin ->]]].
  destruct (countSuspiciousWallets_wallets permuted) as [ws' [Hnd' [Hin' ->]]].
  apply len_perm. apply NoDup_Permutation; [exact Hnd | exact Hnd' |].
  intros w. rewrite Hin, Hin'.
  now rewrite (countsAsSuspicious_perm _ _
                 (timesOf_perm w transfers permuted Hp)).
Qed.

Lemma suspicious_count_order_independent_witness :
  countSuspiciousWallets laterFirst = countSuspiciousWallets earlierFirst.
Proof.
  apply (suspicious_count_order_independent laterFirst earlierFirst).
  apply perm_swap.
Defined.

Lemma sorted_input_unchanged_witness :
  snd (analyzeBundlingPatterns earlierFirst) = earlierFirst.
Proof.
  apply (sorted_input_unchanged earlierFirst).
  cbn. repeat constructor; lia.
Defined.

Lemma timing_full_when_chained_witness :
  fst (analyzeTimeClustering threeEqualShuffled) = 100%Z.
Proof.
  apply (timing_full_when_chained threeEqualShuffled).
  - unfold len. cbn. lia.
  - cbn. repeat constructor; lia.
Defined.

Lemma timing_zero_when_spread_witness :
  fst (analyzeTimeClustering thresholdCase) = 0%Z.
Proof.
  apply (timing_zero_when_spread thresholdCase).
  cbn. repeat constructor; lia.
Defined.



Lemma identical_counts_wallet_score_witness :
  analyzeWalletPatterns threeEqualShuffled = 100%Z.
Proof.
  apply (identical_counts_wallet_score threeEqualShuffled 1).
  intros w [<- | [<- | [<- | []]]]; reflexivity.
Defined.


Lemma concentrated_distribution : analyzeDistribution concentrated = 80%Z.
Proof.
  unfold analyzeDistribution, sumAmounts. cbn. compare_desc.
  unfold sum, pairwiseDifferences. cbn. decide_R. minmax. rounds.
Qed.

Lemma concentration_concern_above_seventy (overallScore : Z) (m : Metrics) :
  (70 < distribution m)%Z ->
  In "High token concentration among few holders"
    (primaryConcerns (generateInsights overallScore m)).
Proof.
  intros Hd. destruct (generateInsights_pairs overallScore m) as [-> _].
  unfold insightPairs, ruleTable.
  destruct (Z.gtb_spec (distribution m) 70) as [_ | Hle]; [| lia].
  destruct (timingCluster m >? 70)%Z, (walletSimilarity m >? 60)%Z,
    (sizePatterns m >? 60)%Z; cbn; auto 6.
Qed.

Lemma concentrated_concern :
  In "High token concentration among few holders"
    (primaryConcerns (insights (fst (analyzeBundlingPatterns concentrated)))).
Proof.
  rewrite analyzeBundlingPatterns_insights.
  apply concentration_concern_above_seventy.
  rewrite analyzeBundlingPatterns_distribution.
  replace (snd (analyzeBundlingPatterns concentrated)) with concentrated
    by (rewrite analyzeBundlingPatterns_array; reflexivity).
  rewrite concentrated_distribution. lia.
Qed.

Lemma concentration_concern_needs_four_receivers_witness :
  (4 <= len (receivers concentrated))%Z.
Proof.
  apply (concentration_concern_needs_four_receivers concentrated).
  - unfold nonNegativeAmounts, concentrated. repeat constructor; cbn; lra.
  - exact concentrated_concern.
Defined.

Lemma short_span_period_witness : getPeriodString earlierFirst = "0h".
Proof.
  apply (short_span_period earlierFirst).
  intros a b [<- | [<- | []]] [<- | [<- | []]]; cbn; lia.
Defined.

Lemma analyzeToken_rejected_witness :
  prefix "Analysis failed: "
    "Analysis failed: Helius RPC error: Too many requests" = true /\
  (forall m, failingRetrieval "MINT" launch "key" = Rejected m ->
             "Analysis failed: Helius RPC error: Too many requests" =
             ("Analysis failed: " ++ m)%string).
Proof.
  apply (analyzeToken_rejected failingRetrieval "MINT" launch "key").
  - discriminate.
  - reflexivity.
Defined.

(** ** Witnesses for the retrieval *)

Lemma sampleData_extracted :
  extractTransfers "MINT" sampleData [] = [sampleTransfer].
Proof.
  unfold extractTransfers, sampleData, sampleTransaction. cbn.
  unfold extractTransfer. cbn.
  destruct (Rlt_dec 0 5) as [_ | Hn]; [reflexivity | exfalso; lra].
Qed.

Lemma extracted_transfers_of_the_token_witness :
  exists tx now tokenTransfers transfer,
    In (Some tx, now) sampleData /\
    Enhanced.transactionError tx = false /\
    Enhanced.tokenTransfers tx = Some tokenTransfers /\
    In transfer tokenTransfers /\
    Enhanced.mint transfer = "MINT" /\
    Enhanced.tokenAmount transfer = Some (amount sampleTransfer) /\
    signature sampleTransfer = Enhanced.signature tx.
Proof.
  apply (extracted_transfers_of_the_token "MINT" sampleData sampleTransfer).
  rewrite sampleData_extracted. now left.
Defined.

(** The loop over the batches runs its body for [i = 0] and [i = 10] at
    most, however many rounds it is given beyond three; it collects the
    transfers of the first batch followed by those of the second, a
    failed batch giving none. *)
Theorem batchLoop_rounds
    (fetchEnhanced :
       string -> nat -> list string -> Settled Enhanced.Response)
    (rounds : nat) (contractAddress apiKey : string)
    (signatures : list Rpc.SignatureResult) :
  let batch i :=
    if (i <? Z.min (len signatures) 20)%Z
    then processBatch fetchEnhanced contractAddress apiKey signatures i []
    else [] in
  batchLoop fetchEnhanced (3 + rounds) contractAddress apiKey signatures 0 [] =
  batch 0%Z ++ batch 10%Z.
Proof.
  intros batch. subst batch. cbn [Nat.add batchLoop].
  change (0 + 10)%Z with 10%Z. change (10 + 10)%Z with 20%Z.
  destruct (Z.ltb_spec 0 (Z.min (len signatures) 20)) as [H0 | H0].
  - destruct (Z.ltb_spec 10 (Z.min (len signatures) 20)) as [H10 | H10].
    + destruct (Z.ltb_spec 20 (Z.min (len signatures) 20)); [lia |].
      apply (processBatch_acc fetchEnhanced).
    + now rewrite app_nil_r.
  - destruct (Z.ltb_spec 10 (Z.min (len signatures) 20)); [lia | reflexivity].
Qed.

(** Whatever the remote calls answer, every transfer [getTokenTransfers]
    is fulfilled with has a positive amount and non-empty sender and
    receiver. *)
Theorem getTokenTransfers_wellFormed
    (fetchSignatures : string -> string -> Z -> Settled Rpc.SignaturesData)
    (fetchEnhanced :
       string -> nat -> list string -> Settled Enhanced.Response)
    (contractAddress : string) (period : Period) (apiKey : string)
    (transfers : list TokenTransfer) :
  getTokenTransfers fetchSignatures fetchEnhanced contractAddress period
    apiKey = Fulfilled transfers ->
  Forall wellFormed transfers.
Proof.
  unfold getTokenTransfers.
  destruct (fetchSignatures _ _ _) as [data | m]; [| discriminate].
  destruct (Rpc.error data) as [e |].
  - destruct (Rpc.message e) as [m |]; [| discriminate].
    destruct (includes m "long-term storage"); [| discriminate].
    apply (reduced_wellFormed fetchSignatures fetchEnhanced).
  - destruct (len _ =? 0)%Z; [discriminate |].
    match goal with
    | |- context [batchLoop ?f ?n ?a ?k ?s ?i ?t] =>
        pose proof (batchLoop_wellFormed f n a k s i t (Forall_nil _)) as Hwf;
        set (ts := batchLoop f n a k s i t) in *
    end.
    destruct (len ts =? 0)%Z; [discriminate |].
    intros Heq. injection Heq as <-. exact Hwf.
Qed.

Lemma sample_retrieved :
  getTokenTransfers sampleSignatures sampleEnhanced "MINT" launch "key" =
  Fulfilled [sampleTransfer].
Proof.
  assert (Hloop : batchLoop sampleEnhanced 3 "MINT" "key"
                     [Rpc.mkSignatureResult "sig1"] 0 [] = [sampleTransfer]).
  { pose proof (batchLoop_unrolled sampleEnhanced 0 "MINT" "key"
                  [Rpc.mkSignatureResult "sig1"]) as H.
    change (3 + 0)%nat with 3%nat in H. cbv zeta in H. rewrite H.
    change (0 <? Z.min (len [Rpc.mkSignatureResult "sig1"]) 20)%Z with true.
    change (10 <? Z.min (len [Rpc.mkSignatureResult "sig1"]) 20)%Z with false.
    unfold processBatch, sampleEnhanced.
    cbn [negb Enhanced.ok Enhanced.json].
    rewrite sampleData_extracted. reflexivity. }
  unfold getTokenTransfers, sampleSignatures.
  cbn [Rpc.error Rpc.result]. rewrite Hloop. reflexivity.
Qed.

Lemma getTokenTransfers_wellFormed_witness :
  Forall wellFormed [sampleTransfer].
Proof.
  apply (getTokenTransfers_wellFormed sampleSignatures sampleEnhanced
           "MINT" launch "key").
  exact sample_retrieved.
Defined.

Lemma getTokenTransfers_empty_witness :
  exists limit data e m,
    storageSignatures "key" "MINT" limit = Fulfilled data /\
    Rpc.error data = Some e /\ Rpc.message e = Some m /\
    includes m "long-term storage" = true.
Proof.
  apply (getTokenTransfers_empty storageSignatures emptyEnhanced
           "MINT" launch "key").
  reflexivity.
Defined.

Lemma sample_analyzed :
  analyzeToken (getTokenTransfers sampleSignatures sampleEnhanced)
    "MINT" launch "key" =
  Fulfilled (fst (analyzeBundlingPatterns [sampleTransfer])).
Proof.
  unfold analyzeToken. rewrite sample_retrieved. reflexivity.
Qed.

Lemma retrieved_analysis_counts_witness :
  let r := fst (analyzeBundlingPatterns [sampleTransfer]) in
  (1 <= totalTransactions (details r))%Z /\
  (0 <= timingCluster (metrics r) <= 100)%Z /\
  (0 <= walletSimilarity (metrics r) <= 100)%Z.
Proof.
  apply (retrieved_analysis_counts sampleSignatures sampleEnhanced
           "MINT" launch "key").
  exact sample_analyzed.
Defined.

(** * The engine in doubles *)

(** ** Binary64 arithmetic *)

Section Binary64Arithmetic.

Import PrimFloat.
Local Open Scope float_scope.

Lemma wholeScores_In (k : Z) :
  (0 <= k <= 100)%Z -> In k Binary64.wholeScores.
Proof.
  intros Hk. unfold Binary64.wholeScores. apply in_map_iff.
  exists (Z.to_nat k). split; [lia |]. apply in_seq. lia.
Qed.

Lemma remember_keeps (seen : PositiveMap.t (list float))
    (p q : Binary64.Partial) :
  Binary64.known seen q -> Binary64.known (Binary64.remember seen p) q.
Proof.
  intros [xs [Hfind Hin]]. unfold Binary64.remember.
  destruct (existsb _ _); [now exists xs |].
  destruct (Pos.eq_dec (Z.to_pos (snd q + 1)) (Z.to_pos (snd p + 1)))
    as [Heq | Hne].
  - rewrite <- Heq, Hfind. exists (fst p :: xs). split.
    + apply PositiveMap.gss.
    + now right.
  - exists xs. split; [| exact Hin].
    rewrite PositiveMap.gso; [exact Hfind | exact Hne].
Qed.

Lemma remember_adds (seen : PositiveMap.t (list float))
    (p : Binary64.Partial) :
  Binary64.known (Binary64.remember seen p) p.
Proof.
  unfold Binary64.remember.
  destruct (existsb _ _) eqn:Hex.
  - apply existsb_exists in Hex as [x [Hin Heq]].
    apply FloatAxioms.Leibniz.eqb_spec in Heq. subst x.
    unfold Binary64.known.
    destruct (PositiveMap.find _ seen) as [xs |]; [| destruct Hin].
    now exists xs.
  - eexists. split; [apply PositiveMap.gss | now left].
Qed.

Lemma remember_all (ps : list Binary64.Partial)
    (seen : PositiveMap.t (list float)) (p : Binary64.Partial) :
  Binary64.known seen p \/ In p ps ->
  Binary64.known (fold_left Binary64.remember ps seen) p.
Proof.
  revert seen. induction ps as [| q ps IH]; intros seen [Hk | Hin]; cbn.
  - exact Hk.
  - destruct Hin.
  - apply IH. left. now apply remember_keeps.
  - apply IH. destruct Hin as [-> | Hin];
      [left; apply remember_adds | now right].
Qed.

Lemma distinct_In (ps : list Binary64.Partial) (p : Binary64.Partial) :
  (0 <= snd p)%Z -> In p ps -> In p (Binary64.distinct ps).
Proof.
  intros Hp Hin.
  destruct (remember_all ps (PositiveMap.empty _) p (or_intror Hin))
    as [xs [Hfind Hx]].
  unfold Binary64.distinct. apply in_flat_map.
  exists (Z.to_pos (snd p + 1), xs). split.
  - now apply PositiveMap.elements_correct.
  - apply in_map_iff. exists (fst p). split; [| exact Hx].
    destruct p as [x n]. cbn [fst snd] in *. f_equal.
    rewrite Z2Pos.id; lia.
Qed.

Lemma nextTerms_In (weight : float) (tenths : Z)
    (partials : list Binary64.Partial) (p : Binary64.Partial) (k : Z) :
  (0 <= snd p)%Z -> (0 <= tenths)%Z -> In p partials -> (0 <= k <= 100)%Z ->
  In (fst p + Binary64.of_Z k * weight, (snd p + tenths * k)%Z)
    (Binary64.nextTerms weight tenths partials).
Proof.
  intros Hp Ht Hin Hk. unfold Binary64.nextTerms.
  apply distinct_In; [cbn; nia |].
  apply in_flat_map. exists p. split; [exact Hin |].
  apply in_map_iff. exists (Binary64.of_Z k * weight, (tenths * k)%Z).
  split; [reflexivity |].
  unfold Binary64.terms. apply in_map_iff. exists k.
  split; [reflexivity |]. now apply wholeScores_In.
Qed.

Lemma weightedSums_In (t w s d : Z) :
  (0 <= t <= 100)%Z -> (0 <= w <= 100)%Z -> (0 <= s <= 100)%Z ->
  (0 <= d <= 100)%Z ->
  In (Binary64.of_Z t * 0.4 + Binary64.of_Z w * 0.3 + Binary64.of_Z s * 0.2
      + Binary64.of_Z d * 0.1,
      (4 * t + 3 * w + 2 * s + 1 * d)%Z)
    Binary64.weightedSums.
Proof.
  intros Ht Hw Hs Hd. unfold Binary64.weightedSums.
  apply (nextTerms_In _ 1 _ (_, (4 * t + 3 * w + 2 * s)%Z) d);
    [cbn [snd]; lia | lia | | exact Hd].
  apply (nextTerms_In _ 2 _ (_, (4 * t + 3 * w)%Z) s);
    [cbn [snd]; lia | lia | | exact Hs].
  apply (nextTerms_In _ 3 _ (_, (4 * t)%Z) w);
    [cbn [snd]; lia | lia | | exact Hw].
  unfold Binary64.terms. apply in_map_iff. exists t.
  split; [reflexivity |]. now apply wholeScores_In.
Qed.

Lemma weightedSums_checked :
  forallb Binary64.roundedAsExpected Binary64.weightedSums = true.
Proof. vm_compute. reflexivity. Qed.

Lemma weightedSum_rounded (t w s d : Z) :
  (0 <= t <= 100)%Z -> (0 <= w <= 100)%Z -> (0 <= s <= 100)%Z ->
  (0 <= d <= 100)%Z ->
  let n := (4 * t + 3 * w + 2 * s + d)%Z in
  exists k : Z,
    Binary64.Math_round
      (Binary64.of_Z t * 0.4 + Binary64.of_Z w * 0.3 + Binary64.of_Z s * 0.2
       + Binary64.of_Z d * 0.1) = Binary64.of_Z k /\
    (n mod 10 <> 5 -> k = (n + 5) / 10)%Z /\
    (n mod 10 = 5 -> k = n / 10 \/ k = n / 10 + 1)%Z.
Proof.
  intros Ht Hw Hs Hd n.
  pose proof (weightedSums_In t w s d Ht Hw Hs Hd) as Hin.
  pose proof weightedSums_checked as Hall.
  rewrite forallb_forall in Hall. apply Hall in Hin.
  replace (4 * t + 3 * w + 2 * s + 1 * d)%Z with n in Hin by (subst n; lia).
  unfold Binary64.roundedAsExpected, Binary64.roundsTo in Hin.
  destruct (Z.eqb_spec (n mod 10) 5) as [Htie | Hno].
  - apply orb_true_iff in Hin as [Hk | Hk];
      apply FloatAxioms.Leibniz.eqb_spec in Hk.
    + exists (n / 10)%Z. split; [exact Hk |]. split; [contradiction | auto].
    + exists (n / 10 + 1)%Z. split; [exact Hk |]. split; [contradiction | auto].
  - apply FloatAxioms.Leibniz.eqb_spec in Hin.
    exists ((n + 5) / 10)%Z. split; [exact Hin |]. split; [auto | contradiction].
Qed.

End Binary64Arithmetic.

(** ** Sorting by a key *)

Lemma same_key_same_element {A : Type} (key : A -> Z) (l : list A) (a b : A) :
  NoDup (map key l) -> In a l -> In b l -> key a = key b -> a = b.
Proof.
  induction l as [| x l IH]; cbn; intros Hnd Ha Hb Hk; [destruct Ha |].
  inversion Hnd as [| k ks Hx Hnd']. subst.
  destruct Ha as [-> | Ha], Hb as [-> | Hb].
  - reflexivity.
  - exfalso. apply Hx. rewrite Hk. now apply in_map.
  - exfalso. apply Hx. rewrite <- Hk. now apply in_map.
  - now apply IH.
Qed.

Lemma insert_by_key_sorted {A : Type} (key : A -> Z) (x : A) (l : list A) :
  StronglySorted (fun a b => (key a <= key b)%Z) l ->
  StronglySorted (fun a b => (key a <= key b)%Z)
    (insert_by (fun a b => (key a - key b <=? 0)%Z) x l).
Proof.
  induction 1 as [| y l Hs IH Hall]; cbn.
  - repeat constructor.
  - destruct (Z.leb_spec (key x - key y) 0) as [Hle | Hgt].
    + constructor.
      * now constructor.
      * constructor; [lia |].
        eapply Forall_impl; [| exact Hall]. cbn. intros; lia.
    + constructor; [exact IH |].
      rewrite (insert_by_perm _ x l). constructor; [lia | exact Hall].
Qed.

Lemma Array_sort_by_key_sorted {A : Type} (key : A -> Z) (l : list A) :
  StronglySorted (fun a b => (key a <= key b)%Z)
    (Array_sort (fun a b => (key a - key b <=? 0)%Z) l).
Proof.
  induction l as [| x l IH]; cbn.
  - constructor.
  - now apply insert_by_key_sorted.
Qed.

Lemma sorted_by_key_unique {A : Type} (key : A -> Z) (l l' : list A) :
  StronglySorted (fun a b => (key a <= key b)%Z) l ->
  StronglySorted (fun a b => (key a <= key b)%Z) l' ->
  Permutation l l' -> NoDup (map key l) -> l = l'.
Proof.
  intros Hl. revert l'.
  induction Hl as [| a l Hs IH Ha]; intros l' Hl' Hp Hnd.
  - now apply Permutation_nil in Hp.
  - destruct Hl' as [| b l' Hs' Hb].
    + symmetry in Hp. now apply Permutation_nil in Hp.
    + assert (Hab : a = b).
      { assert (Hina : In a (b :: l'))
          by (eapply Permutation_in; [exact Hp | now left]).
        assert (Hinb : In b (a :: l))
          by (eapply Permutation_in; [symmetry; exact Hp | now left]).
        apply (same_key_same_element key (a :: l));
          [exact Hnd | now left | exact Hinb |].
        destruct Hina as [-> | Hina]; [reflexivity |].
        destruct Hinb as [-> | Hinb]; [reflexivity |].
        rewrite Forall_forall in Ha, Hb.
        specialize (Ha _ Hinb). specialize (Hb _ Hina). lia. }
      subst b. f_equal. apply IH; [exact Hs' | |].
      * now apply Permutation_cons_inv in Hp.
      * now inversion Hnd.
Qed.

Lemma Array_sort_by_key_perm {A : Type} (key : A -> Z) (l l' : list A) :
  Permutation l l' -> NoDup (map key l) ->
  Array_sort (fun a b => (key a - key b <=? 0)%Z) l =
  Array_sort (fun a b => (key a - key b <=? 0)%Z) l'.
Proof.
  intros Hp Hnd. apply (sorted_by_key_unique key).
  - apply Array_sort_by_key_sorted.
  - apply Array_sort_by_key_sorted.
  - rewrite !Array_sort_perm. exact Hp.
  - eapply Permutation_NoDup; [| exact Hnd].
    apply Permutation_map. symmetry. apply Array_sort_perm.
Qed.

Lemma short_list_perm {A : Type} (l l' : list A) :
  Permutation l l' -> (len l <? 2)%Z = true -> l = l'.
Proof.
  intros Hp Hlen. apply Z.ltb_lt in Hlen. unfold len in Hlen.
  destruct l as [| a [| b l]]; cbn in Hlen; try lia.
  - now apply Permutation_nil in Hp.
  - now apply Permutation_length_1_inv in Hp.
Qed.

Lemma analyzeTimeClustering64_perm (l l' : list Binary64.TokenTransfer) :
  Permutation l l' -> NoDup (map Binary64.timestamp l) ->
  Binary64.analyzeTimeClustering l = Binary64.analyzeTimeClustering l'.
Proof.
  intros Hp Hnd. unfold Binary64.analyzeTimeClustering.
  rewrite <- (len_perm _ _ Hp).
  destruct (len l <? 2)%Z eqn:Hlen.
  - now rewrite (short_list_perm l l' Hp Hlen).
  - unfold Binary64.byTimestamp.
    now rewrite (Array_sort_by_key_perm Binary64.timestamp l l' Hp Hnd).
Qed.

(** ** The order of the input, in doubles *)

(** On transfers whose timestamps differ from one another the analysis
    does not depend on the order of the input: a list and a permutation
    of it give the same result, and leave the same array. *)
Theorem distinct_timestamps_order_independent
    (transfers permuted : list Binary64.TokenTransfer) :
  Permutation transfers permuted ->
  NoDup (map Binary64.timestamp transfers) ->
  Binary64.analyzeBundlingPatterns transfers =
  Binary64.analyzeBundlingPatterns permuted.
Proof.
  intros Hp Hnd. unfold Binary64.analyzeBundlingPatterns.
  rewrite (analyzeTimeClustering64_perm transfers permuted Hp Hnd).
  rewrite (len_perm _ _ Hp).
  rewrite (Set_of_perm
             (map Binary64.from transfers ++ map Binary64.to transfers)
             (map Binary64.from permuted ++ map Binary64.to permuted)).
  - reflexivity.
  - apply Permutation_app; now apply Permutation_map.
Qed.

Lemma distinct_timestamps_order_independent_witness :
  Binary64.analyzeBundlingPatterns Binary64.tieInput =
  Binary64.analyzeBundlingPatterns Binary64.tieInputShuffled.
Proof.
  apply (distinct_timestamps_order_independent
           Binary64.tieInput Binary64.tieInputShuffled).
  - unfold Binary64.tieInput, Binary64.tieInputShuffled.
    apply (Permutation_app_comm
             [Binary64.mkTokenTransfer "sig1" 0 "F" "A" _ 1;
              Binary64.mkTokenTransfer "sig2" 1000000 "F" "A" _ 2]
             [Binary64.mkTokenTransfer "sig3" 2000000 "F" "B" _ 3]).
  - cbn. repeat constructor; cbn; intuition discriminate.
Defined.

(** ** What does not depend on the order, in doubles *)

Lemma timestamps_insert64 (x : Binary64.TokenTransfer)
    (l : list Binary64.TokenTransfer) :
  map Binary64.timestamp (insert_by Binary64.byTimestamp x l) =
  insert_by ascending (Binary64.timestamp x) (map Binary64.timestamp l).
Proof.
  induction l as [| y l IH]; cbn.
  - reflexivity.
  - unfold Binary64.byTimestamp at 1, ascending at 1.
    destruct (Binary64.timestamp x - Binary64.timestamp y <=? 0)%Z; cbn;
      [reflexivity |].
    now rewrite IH.
Qed.

Lemma timestamps_sort64 (l : list Binary64.TokenTransfer) :
  map Binary64.timestamp (Array_sort Binary64.byTimestamp l) =
  Array_sort ascending (map Binary64.timestamp l).
Proof.
  unfold Array_sort. induction l as [| x l IH]; cbn.
  - reflexivity.
  - now rewrite timestamps_insert64, IH.
Qed.

Lemma clusterLoop64_timestamps (windowMs : Z)
    (rest rest' : list Binary64.TokenTransfer) :
  map Binary64.timestamp rest = map Binary64.timestamp rest' ->
  forall prev prev' cur cur' clusters clusters',
    Binary64.timestamp prev = Binary64.timestamp prev' ->
    len cur = len cur' ->
    map (@len _) clusters = map (@len _) clusters' ->
    len (fst (Binary64.clusterLoop windowMs prev rest cur clusters)) =
      len (fst (Binary64.clusterLoop windowMs prev' rest' cur' clusters')) /\
    map (@len _) (snd (Binary64.clusterLoop windowMs prev rest cur clusters)) =
      map (@len _)
        (snd (Binary64.clusterLoop windowMs prev' rest' cur' clusters')).
Proof.
  revert rest'.
  induction rest as [| x rest IH]; intros [| x' rest'] Hts; try discriminate;
    intros prev prev' cur cur' clusters clusters' Hprev Hcur Hcl.
  - cbn. auto.
  - cbn in Hts. injection Hts as Hx Hrest. cbn.
    rewrite Hx, Hprev, Hcur.
    destruct (Binary64.timestamp x' - Binary64.timestamp prev'
              <=? windowMs * 1000)%Z.
    + apply IH; auto. now rewrite !len_push, Hcur.
    + apply IH; auto.
      destruct (len cur' >? 1)%Z; [| exact Hcl].
      unfold push. rewrite !map_app, Hcl. cbn. now rewrite Hcur.
Qed.

Lemma clustersOf64_timestamps (windowMs : Z)
    (sorted sorted' : list Binary64.TokenTransfer) :
  map Binary64.timestamp sorted = map Binary64.timestamp sorted' ->
  map (@len _) (Binary64.clustersOf windowMs sorted) =
  map (@len _) (Binary64.clustersOf windowMs sorted').
Proof.
  destruct sorted as [| s0 rest], sorted' as [| s0' rest']; try discriminate.
  - reflexivity.
  - cbn. intros Hts. injection Hts as H0 Hrest.
    destruct (clusterLoop64_timestamps windowMs rest rest' Hrest
                s0 s0' [s0] [s0'] [] [] H0 eq_refl eq_refl) as [Hc Hk].
    destruct (Binary64.clusterLoop windowMs s0 rest [s0] []) as [cur cl].
    destruct (Binary64.clusterLoop windowMs s0' rest' [s0'] []) as [cur' cl'].
    cbn in Hc, Hk. rewrite Hc.
    destruct (len cur' >? 1)%Z; [| exact Hk].
    unfold push. rewrite !map_app, Hk. cbn. now rewrite Hc.
Qed.

Lemma timingOfSorted64_timestamps
    (sorted sorted' : list Binary64.TokenTransfer) :
  map Binary64.timestamp sorted = map Binary64.timestamp sorted' ->
  Binary64.timingOfSorted sorted = Binary64.timingOfSorted sorted'.
Proof.
  intros Hts.
  unfold Binary64.timingOfSorted, Binary64.clusterScore,
    Binary64.maxClusterSize.
  assert (Hlen : len sorted = len sorted').
  { unfold len.
    now rewrite <- (length_map Binary64.timestamp sorted), Hts, length_map. }
  rewrite Hlen. cbn [fold_left timeWindows].
  now rewrite !(clustersOf64_timestamps _ sorted sorted' Hts).
Qed.

Lemma timing_score64_perm (l l' : list Binary64.TokenTransfer) :
  Permutation l l' ->
  fst (Binary64.analyzeTimeClustering l) =
  fst (Binary64.analyzeTimeClustering l').
Proof.
  intros Hp. unfold Binary64.analyzeTimeClustering.
  rewrite (len_perm _ _ Hp). destruct (len l' <? 2)%Z; cbn; [reflexivity |].
  apply timingOfSorted64_timestamps. rewrite !timestamps_sort64.
  apply Array_sort_ascending_perm. now apply Permutation_map.
Qed.

Lemma analyzeTimeClustering64_array (l : list Binary64.TokenTransfer) :
  Permutation (snd (Binary64.analyzeTimeClustering l)) l.
Proof.
  unfold Binary64.analyzeTimeClustering.
  destruct (len l <? 2)%Z; [reflexivity | apply Array_sort_perm].
Qed.

Lemma getPeriodString64_perm (l l' : list Binary64.TokenTransfer) :
  Permutation l l' ->
  Binary64.getPeriodString l = Binary64.getPeriodString l'.
Proof.
  intros Hp. unfold Binary64.getPeriodString.
  rewrite (len_perm _ _ Hp).
  now rewrite (Array_sort_ascending_perm _ _
                 (Permutation_map Binary64.timestamp Hp)).
Qed.

Lemma collectTimes64_exact (l : list Binary64.TokenTransfer) :
  Binary64.collectTimes l = collectTimes (map exactTransfer l).
Proof.
  unfold Binary64.collectTimes, collectTimes.
  generalize (@nil (string * list Z)).
  induction l as [| t l IH]; intros m; cbn; [reflexivity |].
  now rewrite IH.
Qed.

Lemma countSuspiciousWallets64_perm (l l' : list Binary64.TokenTransfer) :
  Permutation l l' ->
  Binary64.countSuspiciousWallets l = Binary64.countSuspiciousWallets l'.
Proof.
  intros Hp.
  pose proof (countSuspiciousWallets_perm _ _
                (Permutation_map exactTransfer Hp)) as H.
  unfold countSuspiciousWallets in H.
  unfold Binary64.countSuspiciousWallets.
  now rewrite !collectTimes64_exact.
Qed.

(** In doubles too, the timing score and the details of the result do
    not depend on the order of the transfers: the timing-cluster score,
    the number of transactions, the number of unique wallets, the analysis
    period and the number of suspicious wallets of a permutation of a
    list are those of the list. *)
Theorem timing_and_details_order_independent
    (transfers permuted : list Binary64.TokenTransfer) :
  Permutation transfers permuted ->
  let r := fst (Binary64.analyzeBundlingPatterns transfers) in
  let r' := fst (Binary64.analyzeBundlingPatterns permuted) in
  Binary64.timingCluster (Binary64.metrics r) =
    Binary64.timingCluster (Binary64.metrics r') /\
  Binary64.details r = Binary64.details r'.
Proof.
  intros Hp.
  pose proof (timing_score64_perm transfers permuted Hp) as Ht.
  pose proof (analyzeTimeClustering64_array transfers) as Hs.
  pose proof (analyzeTimeClustering64_array permuted) as Hs'.
  unfold Binary64.analyzeBundlingPatterns.
  destruct (Binary64.analyzeTimeClustering transfers) as [timingScore s].
  destruct (Binary64.analyzeTimeClustering permuted) as [timingScore' s'].
  cbn in Ht, Hs, Hs'. cbn. split; [exact Ht |].
  assert (Hss : Permutation s s').
  { rewrite Hs, Hp. symmetry. exact Hs'. }
  rewrite (countSuspiciousWallets64_perm _ _ Hss),
    (getPeriodString64_perm _ _ Hss), (len_perm _ _ Hp).
  rewrite (Set_of_perm
             (map Binary64.from transfers ++ map Binary64.to transfers)
             (map Binary64.from permuted ++ map Binary64.to permuted)).
  - reflexivity.
  - apply Permutation_app; now apply Permutation_map.
Qed.

Lemma timing_and_details_order_independent_witness :
  let r := fst (Binary64.analyzeBundlingPatterns Binary64.sameInstant) in
  let r' :=
    fst (Binary64.analyzeBundlingPatterns Binary64.sameInstantSwapped) in
  Binary64.timingCluster (Binary64.metrics r) =
    Binary64.timingCluster (Binary64.metrics r') /\
  Binary64.details r = Binary64.details r'.
Proof.
  apply (timing_and_details_order_independent
           Binary64.sameInstant Binary64.sameInstantSwapped).
  unfold Binary64.sameInstant, Binary64.sameInstantSwapped.
  apply perm_skip, perm_swap.
Defined.

(** ** A single transfer, in doubles *)

(** In doubles too, and whatever the amount, a single transfer has
    timing, size and distribution scores 0, wallet-similarity score 100
    and composite score 30. *)
Theorem single_transfer_in_doubles (t : Binary64.TokenTransfer) :
  let r := fst (Binary64.analyzeBundlingPatterns [t]) in
  Binary64.metrics r =
    Binary64.mkMetrics (Binary64.of_Z 0) (Binary64.of_Z 100)
      (Binary64.of_Z 0) (Binary64.of_Z 0) /\
  Binary64.score r = Binary64.of_Z 30.
Proof.
  split; vm_compute; reflexivity.
Qed.

(** ** The scores in doubles *)

Section Binary64Properties.

Import PrimFloat.
Local Open Scope float_scope.

Lemma whole_is_not_nan (k : Z) :
  (0 <= k <= 100)%Z -> is_nan (Binary64.of_Z k) = false.
Proof.
  intros Hk. apply wholeScores_In in Hk.
  assert (H : forallb (fun k => negb (is_nan (Binary64.of_Z k)))
                Binary64.wholeScores = true) by (vm_compute; reflexivity).
  rewrite forallb_forall in H. apply H in Hk.
  now apply negb_true_iff in Hk.
Qed.

Lemma nan_not_inRange : ~ Binary64.inRange nan.
Proof.
  intros [k [Hk Heq]]. pose proof (whole_is_not_nan k Hk) as Hn.
  rewrite <- Heq in Hn. discriminate Hn.
Qed.

(** C1 does not hold of the code: on [hugeAmounts], two transfers of
    amount 1e308, the sum of the amounts overflows to [Infinity], the
    coefficient of variation is [Infinity / Infinity], and [NaN] goes
    through [Math.max(0, ...)] and [Math.round]: the size score is [NaN]
    and so is the composite score, neither of them a whole number from 0
    to 100. *)
Theorem overflow_leaves_range :
  let r := fst (Binary64.analyzeBundlingPatterns Binary64.hugeAmounts) in
  Binary64.hugeAmounts <> [] /\
  Binary64.metrics r =
    Binary64.mkMetrics (Binary64.of_Z 100) (Binary64.of_Z 100) nan
      (Binary64.of_Z 0) /\
  Binary64.score r = nan /\
  ~ Binary64.inRange (Binary64.sizePatterns (Binary64.metrics r)) /\
  ~ Binary64.inRange (Binary64.score r).
Proof.
  assert (H : fst (Binary64.analyzeBundlingPatterns Binary64.hugeAmounts) =
              Binary64.mkAnalysisResult nan
                (Binary64.mkMetrics (Binary64.of_Z 100) (Binary64.of_Z 100)
                   nan (Binary64.of_Z 0))
                (Binary64.details
                   (fst (Binary64.analyzeBundlingPatterns
                           Binary64.hugeAmounts)))
                (Binary64.insights
                   (fst (Binary64.analyzeBundlingPatterns
                           Binary64.hugeAmounts))))
    by (vm_compute; reflexivity).
  cbv zeta. rewrite H.
  cbn [Binary64.metrics Binary64.score Binary64.sizePatterns].
  split; [discriminate |]. repeat split; apply nan_not_inRange.
Qed.

Lemma analyzeBundlingPatterns64_score
    (transfers : list Binary64.TokenTransfer) :
  let r := fst (Binary64.analyzeBundlingPatterns transfers) in
  let m := Binary64.metrics r in
  Binary64.score r =
  Binary64.Math_round
    (Binary64.timingCluster m * 0.4 + Binary64.walletSimilarity m * 0.3
     + Binary64.sizePatterns m * 0.2 + Binary64.distribution m * 0.1).
Proof.
  unfold Binary64.analyzeBundlingPatterns.
  destruct (Binary64.analyzeTimeClustering transfers) as [timingScore sorted].
  reflexivity.
Qed.

Lemma tieInput_result :
  let r := fst (Binary64.analyzeBundlingPatterns Binary64.tieInput) in
  Binary64.metrics r =
    Binary64.mkMetrics (Binary64.of_Z 0) (Binary64.of_Z 83)
      (Binary64.of_Z 7) (Binary64.of_Z 42) /\
  Binary64.score r = Binary64.of_Z 30.
Proof. split; vm_compute; reflexivity. Qed.

(** C2, as the code has it: the composite score of a result is
    [Math.round] of the sum
    timingCluster * 0.4 + walletSimilarity * 0.3 + sizePatterns * 0.2
    + distribution * 0.1 of the metrics of that result, added from left
    to right in doubles.  When the four metrics are whole numbers [t],
    [w], [s] and [d] from 0 to 100, the score is the whole number nearest
    to [n / 10] for [n = 4 t + 3 w + 2 s + d]; when [n] ends in 5, so that
    [n / 10] is half-way between two whole numbers, it is one of the
    two. *)
Theorem composite_score_in_doubles
    (transfers : list Binary64.TokenTransfer) :
  let r := fst (Binary64.analyzeBundlingPatterns transfers) in
  let m := Binary64.metrics r in
  Binary64.score r =
    Binary64.Math_round
      (Binary64.timingCluster m * 0.4 + Binary64.walletSimilarity m * 0.3
       + Binary64.sizePatterns m * 0.2 + Binary64.distribution m * 0.1) /\
  forall t w s d : Z,
    m = Binary64.mkMetrics (Binary64.of_Z t) (Binary64.of_Z w)
          (Binary64.of_Z s) (Binary64.of_Z d) ->
    (0 <= t <= 100)%Z -> (0 <= w <= 100)%Z -> (0 <= s <= 100)%Z ->
    (0 <= d <= 100)%Z ->
    let n := (4 * t + 3 * w + 2 * s + d)%Z in
    exists k : Z,
      Binary64.score r = Binary64.of_Z k /\
      (n mod 10 <> 5 -> k = (n + 5) / 10)%Z /\
      (n mod 10 = 5 -> k = n / 10 \/ k = n / 10 + 1)%Z.
Proof.
  intros r m. split; [apply analyzeBundlingPatterns64_score |].
  intros t w s d Hm Ht Hw Hs Hd n.
  subst r m. rewrite analyzeBundlingPatterns64_score. cbv zeta. rewrite Hm.
  cbn [Binary64.timingCluster Binary64.walletSimilarity
       Binary64.sizePatterns Binary64.distribution].
  exact (weightedSum_rounded t w s d Ht Hw Hs Hd).
Qed.

Lemma composite_score_in_doubles_witness :
  exists k : Z,
    Binary64.score (fst (Binary64.analyzeBundlingPatterns Binary64.tieInput))
    = Binary64.of_Z k /\
    ((4 * 0 + 3 * 83 + 2 * 7 + 42) mod 10 <> 5 ->
     k = (4 * 0 + 3 * 83 + 2 * 7 + 42 + 5) / 10)%Z /\
    ((4 * 0 + 3 * 83 + 2 * 7 + 42) mod 10 = 5 ->
     k = (4 * 0 + 3 * 83 + 2 * 7 + 42) / 10 \/
     k = (4 * 0 + 3 * 83 + 2 * 7 + 42) / 10 + 1)%Z.
Proof.
  destruct (composite_score_in_doubles Binary64.tieInput) as [_ H].
  apply (H 0 83 7 42)%Z.
  - vm_compute. reflexivity.
  - lia.
  - lia.
  - lia.
  - lia.
Defined.

(** When the four metrics are whole numbers from 0 to 100, so is the
    composite score. *)
Theorem score_in_range_of_metrics (transfers : list Binary64.TokenTransfer) :
  let r := fst (Binary64.analyzeBundlingPatterns transfers) in
  let m := Binary64.metrics r in
  Binary64.inRange (Binary64.timingCluster m) ->
  Binary64.inRange (Binary64.walletSimilarity m) ->
  Binary64.inRange (Binary64.sizePatterns m) ->
  Binary64.inRange (Binary64.distribution m) ->
  Binary64.inRange (Binary64.score r).
Proof.
  intros r m [t [Ht Htm]] [w [Hw Hwm]] [s [Hs Hsm]] [d [Hd Hdm]].
  subst r m. rewrite analyzeBundlingPatterns64_score. cbv zeta.
  rewrite Htm, Hwm, Hsm, Hdm.
  destruct (weightedSum_rounded t w s d Ht Hw Hs Hd) as [k [Hk [Hno Htie]]].
  exists k. split; [| exact Hk].
  destruct (Z.eq_dec ((4 * t + 3 * w + 2 * s + d) mod 10) 5) as [H5 | H5].
  - destruct (Htie H5) as [-> | ->];
      Z.to_euclidean_division_equations; lia.
  - rewrite (Hno H5). Z.to_euclidean_division_equations. lia.
Qed.

Lemma score_in_range_of_metrics_witness :
  Binary64.inRange
    (Binary64.score (fst (Binary64.analyzeBundlingPatterns Binary64.tieInput))).
Proof.
  apply (score_in_range_of_metrics Binary64.tieInput).
  - exists 0%Z. split; [lia | vm_compute; reflexivity].
  - exists 83%Z. split; [lia | vm_compute; reflexivity].
  - exists 7%Z. split; [lia | vm_compute; reflexivity].
  - exists 42%Z. split; [lia | vm_compute; reflexivity].
Defined.

(** C2 fails as stated: on [tieInput] the metrics are 0, 83, 7 and 42,
    whose weighted sum 30.5 rounds to 31, and the score is 30: the sum of
    the doubles is 30.499999999999996. *)
Lemma composite_score_counterexample :
  let r := fst (Binary64.analyzeBundlingPatterns Binary64.tieInput) in
  Binary64.tieInput <> [] /\
  Binary64.metrics r =
    Binary64.mkMetrics (Binary64.of_Z 0) (Binary64.of_Z 83)
      (Binary64.of_Z 7) (Binary64.of_Z 42) /\
  roundHalfAwayFromZero (0.4 * 0 + 0.3 * 83 + 0.2 * 7 + 0.1 * 42)%R = 31%Z /\
  Binary64.score r = Binary64.of_Z 30 /\
  Binary64.score r <> Binary64.of_Z 31.
Proof.
  destruct tieInput_result as [Hm Hs]. cbv zeta.
  split; [discriminate |]. split; [exact Hm |]. split.
  - rewrite <- Math_round_half_away by lra. apply Math_round_spec. lra.
  - split; [exact Hs |]. rewrite Hs. intros H.
    assert (E : (Binary64.of_Z 30 <? Binary64.of_Z 31) =
                (Binary64.of_Z 31 <? Binary64.of_Z 31))
      by now rewrite H.
    vm_compute in E. discriminate E.
Qed.

(** The analysis depends on the order of transfers that share a
    timestamp.  [sameInstant] and [sameInstantSwapped] hold the same four
    transfers; wallet A receives 3.6 + 0.5 + 1.3 = 5.3999999999999995 in
    the one order and 3.6 + 1.3 + 0.5 = 5.4 in the other, and the
    distribution score is 17 for the one and 18 for the other, the
    composite score 72 and 73. *)
Theorem same_instant_order_matters :
  let r := fst (Binary64.analyzeBundlingPatterns Binary64.sameInstant) in
  let r' :=
    fst (Binary64.analyzeBundlingPatterns Binary64.sameInstantSwapped) in
  Permutation Binary64.sameInstant Binary64.sameInstantSwapped /\
  Binary64.distribution (Binary64.metrics r) = Binary64.of_Z 17 /\
  Binary64.distribution (Binary64.metrics r') = Binary64.of_Z 18 /\
  Binary64.score r = Binary64.of_Z 72 /\
  Binary64.score r' = Binary64.of_Z 73.
Proof.
  cbv zeta. split.
  - unfold Binary64.sameInstant, Binary64.sameInstantSwapped.
    apply perm_skip, perm_swap.
  - repeat split; vm_compute; reflexivity.
Qed.

End Binary64Properties.
